(** * brieflyAI: transcript cleaning, result recovery and item normalisation

    A shallow embedding of the pure core of [app.py]: the caption filter
    [parse_vtt], the date validator [only_future_iso_or_none], the
    structured result recoverer [extract_json], the item normaliser inside
    [analyze_transcript], caption-format detection on both ingestion paths
    and the task body built by [push_to_google_tasks].

    Modelling choices.
    - A Python [str] is a sequence of Unicode code points: [text := list N].
    - The character tables consulted by [re] and the [str] methods
      (whitespace, decimal digit, alphanumeric, [isdigit], case mapping,
      line boundaries) are written out from CPython's Unicode database.
      The whitespace and line-boundary tables are complete; the others are
      exact on U+0000..U+00FF, and code points above U+00FF are taken to be
      caseless symbols.
    - The patterns of [app.py] are kept as regular-expression syntax trees
      and run by a backtracking matcher with the priorities of [re]
      (leftmost, ordered alternation, greedy and lazy counted repetition,
      capture groups, [\b] and [^]).
    - [json.loads] is a recursive-descent decoder following [json.decoder];
      a raised exception is the [Raise] outcome of the [res] type.
    - The clock ([date.today()]) and the model call ([LLM.invoke]) are
      arguments of the functions that consult them. *)

From Stdlib Require Import List NArith ZArith Bool Arith Lia String Ascii.
Import ListNotations.

Set Implicit Arguments.

Set Warnings "-register-all".

Abbreviation length := List.length.

(** ** Text *)

Definition cp := N.
Definition text := list cp.

Definition str (s : string) : text :=
  List.map N_of_ascii (list_ascii_of_string s).

Definition in_range (lo hi c : N) : bool := (N.leb lo c && N.leb c hi)%bool.

Module Unicode.

(** [str.isspace], also the class [\s] of [re] on [str] patterns. *)
Definition is_space (c : cp) : bool :=
  in_range 9 13 c || in_range 28 31 c || N.eqb c 32 || N.eqb c 133
  || N.eqb c 160 || N.eqb c 5760 || in_range 8192 8202 c
  || N.eqb c 8232 || N.eqb c 8233 || N.eqb c 8239 || N.eqb c 8287
  || N.eqb c 12288.

(** Decimal digits: the class [\d]. *)
Definition is_decimal (c : cp) : bool := in_range 48 57 c.

(** [str.isdigit] on one code point: decimal digits and the superscripts
    2, 3 and 1. *)
Definition is_digit (c : cp) : bool :=
  is_decimal c || N.eqb c 178 || N.eqb c 179 || N.eqb c 185.

(** [str.isalnum] on one code point. *)
Definition is_alnum (c : cp) : bool :=
  in_range 48 57 c || in_range 65 90 c || in_range 97 122 c
  || N.eqb c 170 || N.eqb c 178 || N.eqb c 179 || N.eqb c 181
  || N.eqb c 185 || N.eqb c 186 || in_range 188 190 c
  || in_range 192 214 c || in_range 216 246 c || in_range 248 255 c.

(** Word characters of [re]: alphanumerics and the underscore. *)
Definition is_word (c : cp) : bool := is_alnum c || N.eqb c 95.

(** Line boundaries of [str.splitlines]. *)
Definition is_linebreak (c : cp) : bool :=
  in_range 10 13 c || in_range 28 30 c || N.eqb c 133
  || N.eqb c 8232 || N.eqb c 8233.

(** [str.lower] on one code point. *)
Definition lower (c : cp) : cp :=
  if in_range 65 90 c || (in_range 192 222 c && negb (N.eqb c 215))
  then (c + 32)%N else c.


End Unicode.
Import Unicode.

(** ** String helpers of Python *)

Fixpoint text_eqb (a b : text) : bool :=
  match a, b with
  | [], [] => true
  | x :: a', y :: b' => N.eqb x y && text_eqb a' b'
  | _, _ => false
  end.

Fixpoint startswith (s p : text) : bool :=
  match p, s with
  | [], _ => true
  | x :: p', y :: s' => N.eqb x y && startswith s' p'
  | _ :: _, [] => false
  end.

(** [sub in s]. *)
Fixpoint contains (s p : text) : bool :=
  startswith s p || match s with [] => false | _ :: s' => contains s' p end.

Definition endswith (s p : text) : bool := startswith (rev s) (rev p).

Fixpoint lstrip (s : text) : text :=
  match s with
  | c :: s' => if is_space c then lstrip s' else s
  | [] => []
  end.

Definition rstrip (s : text) : text := rev (lstrip (rev s)).

(** [str.strip()]. *)
Definition strip (s : text) : text := rstrip (lstrip s).

(** [str.isdigit()]. *)
Definition isdigit (s : text) : bool :=
  match s with [] => false | _ => forallb is_digit s end.

Definition str_lower (s : text) : text := List.map lower s.

(** [str.splitlines()]: a carriage return followed by a line feed is one
    boundary, and a final boundary opens no further line. *)
Fixpoint splitlines (s : text) : list text :=
  match s with
  | [] => []
  | c :: s' =>
      if is_linebreak c then
        if N.eqb c 13 then
          match s' with
          | d :: s'' => if N.eqb d 10 then [] :: splitlines s''
                        else [] :: splitlines s'
          | [] => [[]]
          end
        else [] :: splitlines s'
      else
        match splitlines s' with
        | [] => [[c]]
        | l :: ls => (c :: l) :: ls
        end
  end.

(** [sep.join(parts)]. *)
Fixpoint join (sep : text) (parts : list text) : text :=
  match parts with
  | [] => []
  | [p] => p
  | p :: ps => p ++ sep ++ join sep ps
  end.

(** ** Regular expressions *)

Inductive regex : Type :=
| Eps : regex
| Cls : (cp -> bool) -> regex
| Seq : regex -> regex -> regex
| Alt : regex -> regex -> regex
| Rep : bool -> nat -> option nat -> (cp -> bool) -> regex
| WordB : regex
| Bol : regex
| Grp : nat -> regex -> regex.

Declare Scope re_scope.
Delimit Scope re_scope with re.
Bind Scope re_scope with regex.
Infix "@@" := Seq (at level 60, right associativity) : re_scope.
Infix "<|>" := Alt (at level 70, right associativity) : re_scope.

Definition chr (a : ascii) : regex := Cls (N.eqb (N_of_ascii a)).
Definition lit (s : string) : regex :=
  fold_right (fun a r => Seq (chr a) r) Eps (list_ascii_of_string s).
Definition any_char : cp -> bool := fun _ => true.
Definition between (lo hi : ascii) : cp -> bool :=
  in_range (N_of_ascii lo) (N_of_ascii hi).
(** [p{n}], [p{lo,hi}], [p*], [p+], [p*?], [r?] *)
Definition times (n : nat) (p : cp -> bool) : regex := Rep true n (Some n) p.
Definition upto (lo hi : nat) (p : cp -> bool) : regex := Rep true lo (Some hi) p.
Definition star (p : cp -> bool) : regex := Rep true 0 None p.
Definition atleast (lo : nat) (p : cp -> bool) : regex := Rep true lo None p.
Definition lazy_star (p : cp -> bool) : regex := Rep false 0 None p.
Definition opt (r : regex) : regex := Alt r Eps.

(** A position of the matcher: the code point before it (none at the start
    of the string), the text after it, and its offset. *)
Record pstate : Type := mkp { prev : option cp; rest : text; off : nat }.

Definition adv (c : cp) (s' : text) (st : pstate) : pstate :=
  mkp (Some c) s' (S (off st)).

Definition word_opt (o : option cp) : bool :=
  match o with Some c => is_word c | None => false end.

(** [\b]: exactly one side is a word character. *)
Definition at_boundary (st : pstate) : bool :=
  xorb (word_opt (prev st)) (word_opt (hd_error (rest st))).

Definition caps := list (nat * (nat * nat)).

Fixpoint get_cap (i : nat) (cs : caps) : option (nat * nat) :=
  match cs with
  | [] => None
  | (j, se) :: cs' => if Nat.eqb i j then Some se else get_cap i cs'
  end.

Definition hi_ok (hi : option nat) : bool :=
  match hi with Some 0 => false | _ => true end.

Section Matcher.
Variable R : Type.

(** Greedy counted repetition of a class: take one more while allowed,
    give back one at a time. *)
Fixpoint rep_greedy (p : cp -> bool) (lo : nat) (hi : option nat)
    (k : pstate -> option R) (pv : option cp) (s : text) (o : nat)
    {struct s} : option R :=
  let stop := match lo with 0 => k (mkp pv s o) | S _ => None end in
  match s with
  | c :: s' =>
      if p c && hi_ok hi then
        match rep_greedy p (pred lo) (option_map pred hi) k (Some c) s' (S o) with
        | Some x => Some x
        | None => stop
        end
      else stop
  | [] => stop
  end.

(** Lazy counted repetition: stop as soon as allowed, take one more on
    failure. *)
Fixpoint rep_lazy (p : cp -> bool) (lo : nat) (hi : option nat)
    (k : pstate -> option R) (pv : option cp) (s : text) (o : nat)
    {struct s} : option R :=
  match (match lo with 0 => k (mkp pv s o) | S _ => None end) with
  | Some x => Some x
  | None =>
      match s with
      | c :: s' =>
          if p c && hi_ok hi
          then rep_lazy p (pred lo) (option_map pred hi) k (Some c) s' (S o)
          else None
      | [] => None
      end
  end.

(** The backtracking matcher, in continuation-passing style. *)
Fixpoint mt (r : regex) (k : caps -> pstate -> option R) (cs : caps)
    (st : pstate) {struct r} : option R :=
  match r with
  | Eps => k cs st
  | Cls p =>
      match rest st with
      | c :: s' => if p c then k cs (adv c s' st) else None
      | [] => None
      end
  | Seq a b => mt a (fun cs' st' => mt b k cs' st') cs st
  | Alt a b =>
      match mt a k cs st with
      | Some x => Some x
      | None => mt b k cs st
      end
  | Rep g lo hi p =>
      (if g then rep_greedy else rep_lazy) p lo hi (k cs)
        (prev st) (rest st) (off st)
  | WordB => if at_boundary st then k cs st else None
  | Bol => match prev st with None => k cs st | Some _ => None end
  | Grp i a => mt a (fun cs' st' => k ((i, (off st, off st')) :: cs') st') cs st
  end.

End Matcher.

(** A match found at one position: the offset of its end and its groups. *)
Definition match_here (r : regex) (st : pstate) : option (nat * caps) :=
  mt r (fun cs st' => Some (off st', cs)) [] st.

(** [pattern.match(s)]: a match at the start of the string. *)
Definition re_match (r : regex) (s : text) : option (nat * caps) :=
  match_here r (mkp None s 0).

(** Length of the match at a position inside a string. *)
Definition match_len (r : regex) (pv : option cp) (s : text) : option nat :=
  mt r (fun _ st' => Some (off st')) [] (mkp pv s 0).

(** [pattern.search(s)]: the leftmost match; start, end and groups. *)
Fixpoint search_from (r : regex) (pv : option cp) (s : text) (o : nat)
    : option (nat * nat * caps) :=
  match match_here r (mkp pv s o) with
  | Some (e, cs) => Some (o, e, cs)
  | None =>
      match s with
      | c :: s' => search_from r (Some c) s' (S o)
      | [] => None
      end
  end.

Definition search (r : regex) (s : text) : option (nat * nat * caps) :=
  search_from r None s 0.

Definition slice (s : text) (b e : nat) : text := firstn (e - b) (skipn b s).

(** [pattern.sub(repl, s)]: [skip] counts the code points of the current
    match that are still to be passed over. *)
Fixpoint sub_go (r : regex) (repl : text) (pv : option cp) (s : text)
    (skip : nat) {struct s} : text :=
  match s with
  | [] =>
      match skip, match_len r pv [] with
      | 0, Some _ => repl
      | _, _ => []
      end
  | c :: s' =>
      match skip with
      | S n => sub_go r repl (Some c) s' n
      | 0 =>
          match match_len r pv s with
          | Some (S n) => repl ++ sub_go r repl (Some c) s' n
          | Some 0 => repl ++ c :: sub_go r repl (Some c) s' 0
          | None => c :: sub_go r repl (Some c) s' 0
          end
      end
  end.

Definition re_sub (r : regex) (repl : text) (s : text) : text :=
  sub_go r repl None s 0.

(** [pattern.findall(s)] for a pattern with one group: the text of the
    group in every match, left to right. *)
Fixpoint findall_go (r : regex) (whole : text) (pv : option cp) (s : text)
    (o skip : nat) {struct s} : list text :=
  let found :=
    match skip with
    | 0 =>
        match match_here r (mkp pv s o) with
        | Some (e, cs) =>
            Some (e - o,
                  match get_cap 1 cs with
                  | Some (gb, ge) => slice whole gb ge
                  | None => []
                  end)
        | None => None
        end
    | S _ => None
    end in
  match s with
  | [] => match found with Some (_, g) => [g] | None => [] end
  | c :: s' =>
      match found with
      | Some (n, g) => g :: findall_go r whole (Some c) s' (S o) (pred n)
      | None => findall_go r whole (Some c) s' (S o) (pred skip)
      end
  end.

Definition findall (r : regex) (s : text) : list text :=
  findall_go r s None s 0 0.

(** ** Patterns of [app.py] *)

Definition digit : cp -> bool := is_decimal.

(** [\b(20\d{2})-(0[1-9]|1[0-2])-(0[1-9]|[12]\d|3[01])\b] *)
Definition ISO_DATE_RE : regex :=
  (WordB
   @@ Grp 1 (lit "20" @@ times 2 digit)
   @@ chr "-"
   @@ Grp 2 ((chr "0" @@ Cls (between "1" "9"))
             <|> (chr "1" @@ Cls (between "0" "2")))
   @@ chr "-"
   @@ Grp 3 ((chr "0" @@ Cls (between "1" "9"))
             <|> (Cls (between "1" "2") @@ Cls digit)
             <|> (chr "3" @@ Cls (between "0" "1")))
   @@ WordB)%re.

(** [\d{2}:\d{2}:\d{2}\.\d{3}] *)
Definition clock_ms : regex :=
  (times 2 digit @@ chr ":" @@ times 2 digit @@ chr ":" @@ times 2 digit
   @@ chr "." @@ times 3 digit)%re.

(** [^\d{2}:\d{2}:\d{2}\.\d{3}\s*-->\s*\d{2}:\d{2}:\d{2}\.\d{3}] *)
Definition VTT_TS_LINE : regex :=
  (Bol @@ clock_ms @@ star is_space @@ lit "-->" @@ star is_space
   @@ clock_ms)%re.

(** [\b\d{1,2}:\d{2}(:\d{2})?(?:\.\d{1,3})?\b] *)
Definition VTT_INLINE_TS : regex :=
  (WordB @@ upto 1 2 digit @@ chr ":" @@ times 2 digit
   @@ opt (Grp 1 (chr ":" @@ times 2 digit))
   @@ opt (chr "." @@ upto 1 3 digit)
   @@ WordB)%re.

(** [\s{2,}] *)
Definition WS_RUN : regex := atleast 2 is_space.

(** ** The caption filter *)

Definition vtt_headers : list text :=
  [str "webvtt"; str "kind:"; str "language:"].

(** One turn of the loop of [parse_vtt]: the line to append to [kept], if
    any. *)
Definition keep_line (line : text) : option text :=
  match re_match VTT_TS_LINE line with
  | Some _ => None
  | None =>
      let line := re_sub VTT_INLINE_TS (str " ") line in
      let line := strip line in
      match line with
      | [] => None
      | _ =>
          if isdigit line then None
          else if existsb (startswith (str_lower line)) vtt_headers then None
          else Some line
      end
  end.

Fixpoint kept_lines (lines : list text) : list text :=
  match lines with
  | [] => []
  | l :: ls =>
      match keep_line l with
      | Some l' => l' :: kept_lines ls
      | None => kept_lines ls
      end
  end.

Definition parse_vtt (vtt_text : text) : text :=
  strip (re_sub WS_RUN (str " ") (join (str " ") (kept_lines (splitlines vtt_text)))).

(** ** Calendar dates *)

Record date : Type := mkdate { year : N; month : N; day : N }.

Definition is_leap (y : N) : bool :=
  (N.eqb (y mod 4) 0 && (negb (N.eqb (y mod 100) 0) || N.eqb (y mod 400) 0))%N.

Definition days_in_month (y m : N) : N :=
  match m with
  | 1 | 3 | 5 | 7 | 8 | 10 | 12 => 31
  | 4 | 6 | 9 | 11 => 30
  | 2 => if is_leap y then 29 else 28
  | _ => 0
  end%N.

(** The constructor [date(year, month, day)]; [None] is its [ValueError]. *)
Definition make_date (y m d : N) : option date :=
  if (in_range 1 9999 y && in_range 1 12 m && in_range 1 (days_in_month y m) d)%bool
  then Some (mkdate y m d) else None.

(** [a >= b] on dates: comparison of the triples (year, month, day). *)
Definition date_ge (a b : date) : bool :=
  if N.eqb (year a) (year b) then
    if N.eqb (month a) (month b) then N.leb (day b) (day a)
    else N.ltb (month b) (month a)
  else N.ltb (year b) (year a).

(** [int(s)] on a run of decimal digits, blanks before it skipped. *)
Definition int_of_digits (s : text) : N :=
  fold_left (fun acc c => if is_decimal c then (acc * 10 + (c - 48))%N else acc) s 0%N.

(** The pattern [_strptime] compiles for the format [%Y-%m-%d]:
    [(?P<Y>\d\d\d\d)-(?P<m>1[0-2]|0[1-9]|[1-9])-(?P<d>3[01]|[12]\d|0[1-9]|[1-9]| [1-9])] *)
Definition STRPTIME_YMD : regex :=
  (Grp 1 (Cls digit @@ Cls digit @@ Cls digit @@ Cls digit)
   @@ chr "-"
   @@ Grp 2 ((chr "1" @@ Cls (between "0" "2"))
             <|> (chr "0" @@ Cls (between "1" "9"))
             <|> Cls (between "1" "9"))
   @@ chr "-"
   @@ Grp 3 ((chr "3" @@ Cls (between "0" "1"))
             <|> (Cls (between "1" "2") @@ Cls digit)
             <|> (chr "0" @@ Cls (between "1" "9"))
             <|> Cls (between "1" "9")
             <|> (chr " " @@ Cls (between "1" "9"))))%re.

Definition group (s : text) (cs : caps) (i : nat) : text :=
  match get_cap i cs with
  | Some (b, e) => slice s b e
  | None => []
  end.

(** [datetime.strptime(s, "%Y-%m-%d").date()]; [None] is its [ValueError]
    (no match, unconverted data, or a day the month does not have). *)
Definition strptime_ymd (s : text) : option date :=
  match re_match STRPTIME_YMD s with
  | Some (e, cs) =>
      if Nat.eqb e (length s)
      then make_date (int_of_digits (group s cs 1))
                     (int_of_digits (group s cs 2))
                     (int_of_digits (group s cs 3))
      else None
  | None => None
  end.

(** The [w] low decimal digits of [n], most significant first. *)
Fixpoint zero_padded (w : nat) (n : N) : text :=
  match w with
  | 0 => []
  | S w' => zero_padded w' (n / 10)%N ++ [(48 + n mod 10)%N]
  end.

(** [date.isoformat()]: ["%04d-%02d-%02d"]; a date has at most four,
    two and two digits. *)
Definition isoformat (d : date) : text :=
  zero_padded 4 (year d) ++ str "-" ++ zero_padded 2 (month d)
  ++ str "-" ++ zero_padded 2 (day d).

(** ** JSON values as Python objects *)

(** A [float] read from a decimal literal: not-a-number, an infinity, or
    the decimal [(-1)^neg * m * 10^e] that [float()] rounds to a double. *)
Inductive pyfloat : Type :=
| FNan : pyfloat
| FInf : bool -> pyfloat
| FDec : bool -> N -> Z -> pyfloat.

Inductive value : Type :=
| JNull : value
| JBool : bool -> value
| JInt : Z -> value
| JFloat : pyfloat -> value
| JStr : text -> value
| JArr : list value -> value
| JObj : list (text * value) -> value.

(** Whether the literal rounds to zero: the mantissa is zero, or the
    decimal is at most half the least subnormal double, [2^-1075]. *)
Definition float_is_zero (f : pyfloat) : bool :=
  match f with
  | FNan | FInf _ => false
  | FDec _ m e =>
      N.eqb m 0
      || (Z.ltb e 0 && Z.leb (Z.of_N m * 2 ^ 1075) (10 ^ (- e)))%Z
  end.

(** Truth value of an object, as tested by [not x] and [x or y]. *)
Definition truthy (v : value) : bool :=
  match v with
  | JNull => false
  | JBool b => b
  | JInt z => negb (Z.eqb z 0)
  | JFloat f => negb (float_is_zero f)
  | JStr s => match s with [] => false | _ => true end
  | JArr l => match l with [] => false | _ => true end
  | JObj kv => match kv with [] => false | _ => true end
  end.

(** [d.get(key)] and [d[key] = v] on an insertion-ordered [dict]. *)
Fixpoint dict_get (kv : list (text * value)) (key : text) : option value :=
  match kv with
  | [] => None
  | (k, v) :: kv' => if text_eqb k key then Some v else dict_get kv' key
  end.

Fixpoint dict_set (kv : list (text * value)) (key : text) (v : value)
    : list (text * value) :=
  match kv with
  | [] => [(key, v)]
  | (k, w) :: kv' =>
      if text_eqb k key then (k, v) :: kv' else (k, w) :: dict_set kv' key v
  end.

(** ** [json.loads] *)

Module Json.

Definition is_ws (c : cp) : bool :=
  N.eqb c 32 || N.eqb c 9 || N.eqb c 10 || N.eqb c 13.

Fixpoint skip_ws (s : text) : text :=
  match s with
  | c :: s' => if is_ws c then skip_ws s' else s
  | [] => []
  end.

Definition hex_val (c : cp) : option N :=
  if in_range 48 57 c then Some (c - 48)%N
  else if in_range 97 102 c then Some (c - 87)%N
  else if in_range 65 70 c then Some (c - 55)%N
  else None.

(** Four hexadecimal digits after [\u]. *)
Definition hex4 (s : text) : option (N * text) :=
  match s with
  | a :: b :: c :: d :: s' =>
      match hex_val a, hex_val b, hex_val c, hex_val d with
      | Some x, Some y, Some z, Some w =>
          Some (((x * 16 + y) * 16 + z) * 16 + w, s')%N
      | _, _, _, _ => None
      end
  | _ => None
  end.

(** [scanstring] in strict mode, after the opening quote: the decoded
    string and the text after the closing quote. *)
Fixpoint scanstring (s : text) (fuel : nat) {struct fuel} : option (text * text) :=
  match fuel with
  | 0 => None
  | S f =>
      match s with
      | [] => None
      | 34 :: s' => Some ([], s')
      | 92 :: e :: s' =>
          let simple (c : cp) :=
            match scanstring s' f with
            | Some (t, r) => Some (c :: t, r)
            | None => None
            end in
          match e with
          | 34 => simple 34
          | 92 => simple 92
          | 47 => simple 47
          | 98 => simple 8
          | 102 => simple 12
          | 110 => simple 10
          | 114 => simple 13
          | 116 => simple 9
          | 117 =>
              match hex4 s' with
              | Some (u, s1) =>
                  let lone :=
                    match scanstring s1 f with
                    | Some (t, r) => Some (u :: t, r)
                    | None => None
                    end in
                  if in_range 55296 56319 u then
                    match s1 with
                    | 92 :: 117 :: s2 =>
                        match hex4 s2 with
                        | Some (u2, s3) =>
                            if in_range 56320 57343 u2 then
                              match scanstring s3 f with
                              | Some (t, r) =>
                                  Some ((65536 + (u - 55296) * 1024 + (u2 - 56320)) :: t, r)
                              | None => None
                              end
                            else lone
                        | None => lone
                        end
                    | _ => lone
                    end
                  else lone
              | None => None
              end
          | _ => None
          end%N
      | c :: s' =>
          if N.ltb c 32 then None
          else
            match scanstring s' f with
            | Some (t, r) => Some (c :: t, r)
            | None => None
            end
      end%N
  end.

Fixpoint take_digits (s : text) : text * text :=
  match s with
  | c :: s' =>
      if is_decimal c then let (d, r) := take_digits s' in (c :: d, r)
      else ([], s)
  | [] => ([], [])
  end.

(** The integer part of a number: [0] or a digit run without leading
    zero. *)
Definition int_part (s : text) : option (text * text) :=
  match s with
  | 48 :: s' => Some ([48], s')
  | c :: s' =>
      if in_range 49 57 c then let (d, r) := take_digits s' in Some (c :: d, r)
      else None
  | [] => None
  end%N.

Definition frac_part (s : text) : option (text * text) :=
  match s with
  | 46 :: s' =>
      match take_digits s' with
      | ([], _) => None
      | (d, r) => Some (d, r)
      end
  | _ => None
  end%N.

Definition exp_part (s : text) : option (Z * text) :=
  match s with
  | c :: s' =>
      if N.eqb c 101 || N.eqb c 69 then
        let '(neg, s1) :=
          match s' with
          | 45 :: s1 => (true, s1)
          | 43 :: s1 => (false, s1)
          | _ => (false, s')
          end%N in
        match take_digits s1 with
        | ([], _) => None
        | (d, r) =>
            let n := Z.of_N (int_of_digits d) in
            Some (if neg then (- n)%Z else n, r)
        end
      else None
  | [] => None
  end.

(** [NUMBER_RE]: an optional minus sign, the integer part, an optional
    fraction and an optional exponent; an [int] without fraction and
    exponent, a [float] otherwise. *)
Definition scan_number (s : text) : option (value * text) :=
  let '(neg, s0) :=
    match s with
    | 45 :: s' => (true, s')
    | _ => (false, s)
    end%N in
  match int_part s0 with
  | None => None
  | Some (ds, s1) =>
      let '(fr, s2) :=
        match frac_part s1 with
        | Some (d, r) => (Some d, r)
        | None => (None, s1)
        end in
      let '(ex, s3) :=
        match exp_part s2 with
        | Some (e, r) => (Some e, r)
        | None => (None, s2)
        end in
      match fr, ex with
      | None, None =>
          let n := Z.of_N (int_of_digits ds) in
          Some (JInt (if neg then (- n)%Z else n), s3)
      | _, _ =>
          let fd := match fr with Some d => d | None => [] end in
          let e := match ex with Some e => e | None => 0%Z end in
          Some (JFloat (FDec neg (int_of_digits (ds ++ fd))
                          (e - Z.of_nat (length fd))%Z), s3)
      end
  end.

Definition keyword (s : text) (w : string) (v : value) : option (value * text) :=
  if startswith s (str w) then Some (v, skipn (String.length w) s) else None.

(** [scan_once], with the loops of [JSONObject] and [JSONArray]; the
    fuel bounds the depth of the calls. *)
Fixpoint scan_once (fuel : nat) (s : text) {struct fuel} : option (value * text) :=
  match fuel with
  | 0 => None
  | S f =>
      match s with
      | [] => None
      | 34 :: s' =>
          match scanstring s' (S (length s')) with
          | Some (t, r) => Some (JStr t, r)
          | None => None
          end
      | 123 :: s' =>
          match skip_ws s' with
          | 125 :: r => Some (JObj [], r)
          | s1 =>
              match members f s1 [] with
              | Some (kv, r) => Some (JObj kv, r)
              | None => None
              end
          end
      | 91 :: s' =>
          match skip_ws s' with
          | 93 :: r => Some (JArr [], r)
          | s1 =>
              match elements f s1 with
              | Some (l, r) => Some (JArr l, r)
              | None => None
              end
          end
      | 110 :: _ => keyword s "null" JNull
      | 116 :: _ => keyword s "true" (JBool true)
      | 102 :: _ => keyword s "false" (JBool false)
      | 78 :: _ => keyword s "NaN" (JFloat FNan)
      | 73 :: _ => keyword s "Infinity" (JFloat (FInf false))
      | 45 :: _ =>
          match keyword s "-Infinity" (JFloat (FInf true)) with
          | Some x => Some x
          | None => scan_number s
          end
      | _ => scan_number s
      end%N
  end
with members (fuel : nat) (s : text) (acc : list (text * value)) {struct fuel}
    : option (list (text * value) * text) :=
  match fuel with
  | 0 => None
  | S f =>
      match s with
      | 34 :: s' =>
          match scanstring s' (S (length s')) with
          | Some (key, r) =>
              match skip_ws r with
              | 58 :: r1 =>
                  match scan_once f (skip_ws r1) with
                  | Some (v, r2) =>
                      let acc' := dict_set acc key v in
                      match skip_ws r2 with
                      | 125 :: r3 => Some (acc', r3)
                      | 44 :: r3 => members f (skip_ws r3) acc'
                      | _ => None
                      end
                  | None => None
                  end
              | _ => None
              end
          | None => None
          end
      | _ => None
      end%N
  end
with elements (fuel : nat) (s : text) {struct fuel}
    : option (list value * text) :=
  match fuel with
  | 0 => None
  | S f =>
      match scan_once f s with
      | Some (v, r) =>
          match skip_ws r with
          | 93 :: r1 => Some ([v], r1)
          | 44 :: r1 =>
              match elements f (skip_ws r1) with
              | Some (l, r2) => Some (v :: l, r2)
              | None => None
              end
          | _ => None
          end%N
      | None => None
      end
  end.

(** [json.loads(s)] on a [str]; [None] is the [JSONDecodeError]. *)
Definition loads (s : text) : option value :=
  if startswith s [65279%N] then None
  else
    match scan_once (2 * S (length s)) (skip_ws s) with
    | Some (v, r) => match skip_ws r with [] => Some v | _ => None end
    | None => None
    end.

End Json.

(** ** Outcomes of Python code *)

Inductive exn : Type := TypeError | AttributeError.

Inductive res (A : Type) : Type :=
| Ok : A -> res A
| Raise : exn -> res A.
Arguments Ok {A} _.
Arguments Raise {A} _.

Definition bind {A B : Type} (m : res A) (f : A -> res B) : res B :=
  match m with
  | Ok a => f a
  | Raise e => Raise e
  end.

Notation "x <- m ;; f" := (bind m (fun x => f))
  (at level 61, m at next level, right associativity).

(** ** The date validator *)

Definition NONE : text := str "None".

(** [only_future_iso_or_none(s)] with [date.today()] given.  [not s] holds
    for [None], the empty string and every other false object;
    [ISO_DATE_RE.search] raises [TypeError] on an object that is not a
    string. *)
Definition only_future_iso_or_none (today : date) (s : value) : res text :=
  if negb (truthy s) then Ok NONE
  else
    match s with
    | JStr t =>
        match search ISO_DATE_RE t with
        | None => Ok NONE
        | Some (b, e, _) =>
            match strptime_ymd (slice t b e) with
            | Some d => Ok (if date_ge d today then isoformat d else NONE)
            | None => Ok NONE
            end
        end
    | _ => Raise TypeError
    end.

(** ** The structured result recoverer *)

Definition any : cp -> bool := any_char.

(** The fenced pattern of [extract_json], with [re.S]: three backquotes
    and [json], blanks, a lazily closed object or array as group 1,
    blanks, three backquotes. *)
Definition FENCED_JSON : regex :=
  (lit "```json" @@ star is_space
   @@ Grp 1 ((chr "{" @@ lazy_star any @@ chr "}")
             <|> (chr "[" @@ lazy_star any @@ chr "]"))
   @@ star is_space @@ lit "```")%re.

(** The candidate pattern of [extract_json], with [re.S]: a greedily
    closed object or array as group 1. *)
Definition BARE_JSON : regex :=
  Grp 1 ((chr "{" @@ star any @@ chr "}")
         <|> (chr "[" @@ star any @@ chr "]"))%re.

(** Step 1: the fenced block, when the pattern matches and its group
    decodes. *)
Definition fenced_block (t : text) : option text :=
  match search FENCED_JSON t with
  | Some (_, _, cs) => Some (group t cs 1)
  | None => None
  end.

(** The loop over [reversed(candidates)]: the first that decodes. *)
Fixpoint first_decoded (cands : list text) : option value :=
  match cands with
  | [] => None
  | c :: cs =>
      match Json.loads c with
      | Some v => Some v
      | None => first_decoded cs
      end
  end.

(** Steps 2 and 3: the candidates from the last to the first, then the
    whole text; [JNull] is the [None] returned at the end. *)
Definition scan_candidates (t : text) : value :=
  match first_decoded (rev (findall BARE_JSON t)) with
  | Some v => v
  | None =>
      match Json.loads t with
      | Some v => v
      | None => JNull
      end
  end.

Definition extract_json (t : text) : value :=
  match fenced_block t with
  | Some body =>
      match Json.loads body with
      | Some v => v
      | None => scan_candidates t
      end
  | None => scan_candidates t
  end.

(** ** The extraction pipeline *)

Definition dq : text := [34%N].

Definition OUTPUT_SCHEMA : text :=
  str "
Return ONLY valid JSON (no backticks, no prose), exactly:

{
  " ++ dq ++ str "summary" ++ dq ++ str ": " ++ dq ++ str "2" ++ [8211%N]
  ++ str "3 sentence summary of the meeting; plain text." ++ dq ++ str ",
  " ++ dq ++ str "items" ++ dq ++ str ": [
    {" ++ dq ++ str "action" ++ dq ++ str ": " ++ dq
  ++ str "what needs to be done" ++ dq ++ str ", " ++ dq ++ str "owner" ++ dq
  ++ str ": " ++ dq ++ str "person or 'None'" ++ dq ++ str ", " ++ dq
  ++ str "due" ++ dq ++ str ": " ++ dq ++ str "YYYY-MM-DD or 'None'" ++ dq
  ++ str "}
  ]
}
".

Definition nl : text := [10%N].

Definition build_prompt (transcript : text) : text :=
  str "You are a meticulous meeting parser." ++ nl ++ nl
  ++ str "RULES:" ++ nl
  ++ str "1) The input may come from a WebVTT file. IGNORE all timestamp lines (e.g., '00:00:01.000 --> 00:00:04.000') "
  ++ str "   and any inline time tokens like '0:12' or '01:02:03' " ++ [8212%N]
  ++ str " these are NOT dates." ++ nl
  ++ str "2) Extract only concrete decisions and action items. No chit-chat." ++ nl
  ++ str "3) If an owner/due date is not explicitly clear, set it to 'None'. Do NOT guess." ++ nl
  ++ str "4) Dates MUST be ISO (YYYY-MM-DD). If you see natural language dates, convert them; otherwise 'None'." ++ nl
  ++ str "5) Output STRICT JSON per the schema below. No explanations." ++ nl ++ nl
  ++ OUTPUT_SCHEMA ++ nl ++ nl
  ++ str "Transcript (timestamps already removed where possible):" ++ nl
  ++ transcript ++ nl.

(** [x.get(key)]: only a [dict] has the method. *)
Definition py_get (x : value) (key : string) : res value :=
  match x with
  | JObj kv =>
      Ok (match dict_get kv (str key) with Some v => v | None => JNull end)
  | _ => Raise AttributeError
  end.

(** [x or y]. *)
Definition py_or (x y : value) : value := if truthy x then x else y.

(** [x.strip()]: only a [str] has the method. *)
Definition py_strip (x : value) : res text :=
  match x with
  | JStr s => Ok (strip s)
  | _ => Raise AttributeError
  end.

Definition or_none (s : text) : text :=
  match s with [] => NONE | _ => s end.

(** The body of the loop of [analyze_transcript]: the clean item built
    from [it]. *)
Definition normalize_item (today : date) (it : value) : res value :=
  a <- py_get it "action" ;;
  action <- py_strip (py_or a (JStr [])) ;;
  o <- py_get it "owner" ;;
  o' <- py_strip (py_or o (JStr NONE)) ;;
  let owner := or_none o' in
  d <- py_get it "due" ;;
  due <- only_future_iso_or_none today d ;;
  Ok (JObj [(str "action", JStr (or_none action));
            (str "owner", JStr owner);
            (str "due", JStr due)]).

(** What [for it in x] goes through: the elements of a list, the
    one-character strings of a string, the keys of a [dict]; the other
    objects are not iterable. *)
Definition py_iter (x : value) : res (list value) :=
  match x with
  | JArr l => Ok l
  | JStr s => Ok (List.map (fun c => JStr [c]) s)
  | JObj kv => Ok (List.map (fun p => JStr (fst p)) kv)
  | _ => Raise TypeError
  end.

Fixpoint normalize_all (today : date) (its : list value) : res (list value) :=
  match its with
  | [] => Ok []
  | it :: rest =>
      c <- normalize_item today it ;;
      cs <- normalize_all today rest ;;
      Ok (c :: cs)
  end.

(** The result used when [not data]. *)
Definition fallback (raw : text) : value :=
  JObj [(str "summary", JStr (firstn 1000 raw)); (str "items", JArr [])].

(** [data.get("items", [])]. *)
Definition get_items (data : value) : res value :=
  match data with
  | JObj kv =>
      Ok (match dict_get kv (str "items") with Some v => v | None => JArr [] end)
  | _ => Raise AttributeError
  end.

(** The loop [for it in data.get("items", []): ...] and the list it
    fills. *)
Definition clean_items (today : date) (data : value) : res (list value) :=
  items <- get_items data ;;
  its <- py_iter items ;;
  normalize_all today its.

(** [data["items"] = clean_items]. *)
Definition set_items (data : value) (cs : list value) : res value :=
  match data with
  | JObj kv => Ok (JObj (dict_set kv (str "items") (JArr cs)))
  | _ => Raise TypeError
  end.

(** [analyze_transcript] from the raw response of the model on. *)
Definition analyze_response (today : date) (raw : text) : res value :=
  let data := extract_json raw in
  let data := if negb (truthy data) then fallback raw else data in
  cs <- clean_items today data ;;
  set_items data cs.

Definition analyze_transcript (llm : text -> text) (today : date)
    (transcript : text) : res value :=
  analyze_response today (llm (build_prompt transcript)).

(** ** Ingestion *)

(** An uploaded file: its name and its content once decoded. *)
Record upload : Type := mkupload { up_name : text; up_text : text }.

Definition read_uploaded_text (file : upload) : text :=
  if endswith (str_lower (up_name file)) (str ".vtt")
  then parse_vtt (up_text file)
  else up_text file.




(** ** Task creation *)

(** The [body] that [push_to_google_tasks] hands to [tasks().insert]. *)
Definition task_body (title notes due_iso : text) : list (text * value) :=
  let body := [(str "title", JStr title)] in
  let body :=
    match notes with
    | [] => body
    | _ => dict_set body (str "notes") (JStr notes)
    end in
  if negb (text_eqb due_iso NONE)
  then dict_set body (str "due") (JStr (due_iso ++ str "T09:00:00.000Z"))
  else body.

(** ** What a pattern matches

    [Mt r st st'] holds when [r] can match from position [st] to position
    [st']; it is the specification of the matcher, without its
    priorities. *)

Fixpoint RepM (p : cp -> bool) (n : nat) (st st' : pstate) : Prop :=
  match n with
  | 0 => st' = st
  | S n' =>
      exists c s', rest st = c :: s' /\ p c = true
                   /\ RepM p n' (adv c s' st) st'
  end.

Definition within (hi : option nat) (n : nat) : Prop :=
  match hi with Some h => n <= h | None => True end.

Fixpoint Mt (r : regex) (st st' : pstate) : Prop :=
  match r with
  | Eps => st' = st
  | Cls p => exists c s', rest st = c :: s' /\ p c = true /\ st' = adv c s' st
  | Seq a b => exists m, Mt a st m /\ Mt b m st'
  | Alt a b => Mt a st st' \/ Mt b st st'
  | Rep _ lo hi p => exists n, lo <= n /\ within hi n /\ RepM p n st st'
  | WordB => st' = st /\ at_boundary st = true
  | Bol => st' = st /\ prev st = None
  | Grp _ a => Mt a st st'
  end.

(** The code point before the position reached after [u]. *)
Definition last_opt (pv : option cp) (u : text) : option cp :=
  fold_left (fun _ c => Some c) u pv.

(** The position reached from [st] once [u] is consumed. *)
Definition after (st : pstate) (u v : text) : pstate :=
  mkp (last_opt (prev st) u) v (off st + length u).

(** The same specification on spans: [Ms r l u rt] holds when [r] can
    match the text [u] standing after the code point [l] and before the
    text [rt]. *)
Fixpoint Ms (r : regex) (l : option cp) (u rt : text) : Prop :=
  match r with
  | Eps => u = []
  | Cls p => exists c, u = [c] /\ p c = true
  | Seq a b =>
      exists u1 u2, u = u1 ++ u2 /\ Ms a l u1 (u2 ++ rt)
                    /\ Ms b (last_opt l u1) u2 rt
  | Alt a b => Ms a l u rt \/ Ms b l u rt
  | Rep _ lo hi p =>
      forallb p u = true /\ lo <= length u /\ within hi (length u)
  | WordB => u = [] /\ xorb (word_opt l) (word_opt (hd_error rt)) = true
  | Bol => u = [] /\ l = None
  | Grp _ a => Ms a l u rt
  end.

(** ** The date validator, read off directly

    A second reading of [only_future_iso_or_none], without the pattern
    matcher: the shape of an ISO date, its first word-bounded occurrence
    and its calendar value. *)

(** Ten code points [20YY-MM-DD] with the month in 01..12 and the day in
    01..31. *)
Definition iso_shape (u : text) : bool :=
  match u with
  | [a; b; c; d; h1; m1; m2; h2; d1; d2] =>
      N.eqb a 50 && N.eqb b 48 && is_decimal c && is_decimal d
      && N.eqb h1 45
      && ((N.eqb m1 48 && in_range 49 57 m2) || (N.eqb m1 49 && in_range 48 50 m2))
      && N.eqb h2 45
      && ((N.eqb d1 48 && in_range 49 57 d2)
          || (in_range 49 50 d1 && is_decimal d2)
          || (N.eqb d1 51 && in_range 48 49 d2))
  | _ => false
  end.

(** An ISO date stands at the head of [s], after [pv], with no word
    character on either side. *)
Definition iso_here (pv : option cp) (s : text) : bool :=
  iso_shape (firstn 10 s) && negb (word_opt pv)
  && negb (word_opt (hd_error (skipn 10 s))).

Fixpoint first_iso (pv : option cp) (s : text) : option text :=
  if iso_here pv s then Some (firstn 10 s)
  else
    match s with
    | c :: s' => first_iso (Some c) s'
    | [] => None
    end.

(** The calendar date written by ten code points, if the month has the
    day. *)
Definition iso_date (u : text) : option date :=
  match u with
  | [a; b; c; d; _; m1; m2; _; d1; d2] =>
      make_date ((a - 48) * 1000 + (b - 48) * 100 + (c - 48) * 10 + (d - 48))
                ((m1 - 48) * 10 + (m2 - 48)) ((d1 - 48) * 10 + (d2 - 48))%N
  | _ => None
  end.

Definition validate_direct (today : date) (s : text) : text :=
  match first_iso None s with
  | None => NONE
  | Some u =>
      match iso_date u with
      | Some d => if date_ge d today then u else NONE
      | None => NONE
      end
  end.

Definition date_eqb (a b : date) : bool :=
  N.eqb (year a) (year b) && N.eqb (month a) (month b) && N.eqb (day a) (day b).

Definition code_range (lo : nat) (len : nat) : list cp :=
  List.map N.of_nat (seq lo len).

Definition iso_months : list text :=
  List.map (fun c => [48%N; c]) (code_range 49 9)
  ++ List.map (fun c => [49%N; c]) (code_range 48 3).

Definition iso_days : list text :=
  List.map (fun c => [48%N; c]) (code_range 49 9)
  ++ List.flat_map (fun a => List.map (fun c => [a; c]) (code_range 48 10))
       (code_range 49 2)
  ++ List.map (fun c => [51%N; c]) (code_range 48 2).

(** Every text of ISO shape. *)
Definition all_iso : list text :=
  List.flat_map (fun c =>
    List.flat_map (fun d =>
      List.flat_map (fun mm =>
        List.map (fun dd => [50%N; 48%N; c; d; 45%N] ++ mm ++ [45%N] ++ dd)
          iso_days)
        iso_months)
      (code_range 48 10))
    (code_range 48 10).

(** On a text of ISO shape, [strptime] reads the calendar value and
    [isoformat] writes the text back. *)
Definition strptime_agrees (u : text) : bool :=
  match strptime_ymd u, iso_date u with
  | Some d, Some d' => date_eqb d d' && text_eqb (isoformat d) u
  | None, None => true
  | _, _ => false
  end.

(** The number of code points a pattern consumes, when every match of it
    has the same length. *)
Fixpoint fixed_width (r : regex) : option nat :=
  match r with
  | Eps | WordB | Bol => Some 0
  | Cls _ => Some 1
  | Seq a b =>
      match fixed_width a, fixed_width b with
      | Some x, Some y => Some (x + y)
      | _, _ => None
      end
  | Alt a b =>
      match fixed_width a, fixed_width b with
      | Some x, Some y => if Nat.eqb x y then Some x else None
      | _, _ => None
      end
  | Rep _ lo (Some hi) _ => if Nat.eqb lo hi then Some lo else None
  | Rep _ _ None _ => None
  | Grp _ a => fixed_width a
  end.

(** ** Items the normaliser can read, and clean items *)

(** An object the normaliser can take for a text field: a string, or any
    false object (absent, [null], zero, an empty container). *)
Definition readable (v : value) : bool :=
  match v with
  | JStr _ => true
  | _ => negb (truthy v)
  end.

(** [kv.get(k)]. *)
Definition field (kv : list (text * value)) (k : string) : value :=
  match dict_get kv (str k) with
  | Some v => v
  | None => JNull
  end.

Definition readable_item (it : value) : bool :=
  match it with
  | JObj kv =>
      readable (field kv "action") && readable (field kv "owner")
      && readable (field kv "due")
  | _ => false
  end.

(** A due value is the placeholder or an ISO date of the calendar that
    is today or later. *)
Definition due_ok (today : date) (d : text) : Prop :=
  d = NONE
  \/ exists dt, strptime_ymd d = Some dt /\ isoformat dt = d
                /\ date_ge dt today = true.

Definition well_formed_item (today : date) (c : value) : Prop :=
  exists a o d,
    c = JObj [(str "action", JStr a); (str "owner", JStr o); (str "due", JStr d)]
    /\ a <> [] /\ o <> [] /\ due_ok today d.

(** ** The caption filter, read off directly

    Direct readings of the three patterns of [parse_vtt] and of what the
    filter keeps, used to state what the filter does. *)

(** Length of the run of code points of class [p] at the head of [s]. *)
Fixpoint run (p : cp -> bool) (s : text) : nat :=
  match s with
  | c :: s' => if p c then S (run p s') else 0
  | [] => 0
  end.

(** Whitespace collapsing: every run of two or more whitespace code
    points becomes one space; [in_run] tells that the run at hand has
    already given its space. *)
Fixpoint squeeze (in_run : bool) (s : text) : text :=
  match s with
  | [] => []
  | c :: s' =>
      if is_space c then
        if in_run then squeeze true s'
        else
          match s' with
          | d :: _ =>
              if is_space d then 32%N :: squeeze true s'
              else c :: squeeze false s'
          | [] => [c]
          end
      else c :: squeeze false s'
  end.


(** The pieces of [s] between whitespace code points, empty ones
    included. *)
Fixpoint split_ws (s : text) : list text :=
  match s with
  | [] => [[]]
  | c :: s' =>
      if is_space c then [] :: split_ws s'
      else
        match split_ws s' with
        | l :: ls => (c :: l) :: ls
        | [] => [[c]]
        end
  end.

Definition nonempty (s : text) : bool :=
  match s with [] => false | _ => true end.

(** [s.split()]: the words of [s]. *)
Definition words (s : text) : list text := filter nonempty (split_ws s).

(** An optional fractional suffix: nothing, or a dot and one to three
    digits. *)
Definition fraction (s : text) : bool :=
  match s with
  | [] => true
  | p :: ds =>
      N.eqb p 46 && forallb is_decimal ds
      && Nat.leb 1 (length ds) && Nat.leb (length ds) 3
  end.

(** Minutes, then optional seconds, then the optional fraction. *)
Definition minutes_on (s : text) : bool :=
  match s with
  | m1 :: m2 :: r =>
      is_decimal m1 && is_decimal m2
      && (fraction r
          || match r with
             | c :: s1 :: s2 :: r' =>
                 N.eqb c 58 && is_decimal s1 && is_decimal s2 && fraction r'
             | _ => false
             end)
  | _ => false
  end.

(** An inline short timecode: [D:MM] or [D:MM:SS] with an optional extra
    leading digit and an optional fraction. *)
Definition timecode (u : text) : bool :=
  match u with
  | h :: x :: r =>
      is_decimal h
      && (if N.eqb x 58 then minutes_on r
          else is_decimal x
               && match r with
                  | y :: r' => N.eqb y 58 && minutes_on r'
                  | [] => false
                  end)
  | _ => false
  end.


(** [Replaced pv s o]: [o] is [s], which stands after [pv], with some
    word-bounded timecodes, one after the other, each replaced by one
    space, and everything else kept. *)
Inductive Replaced : option cp -> text -> text -> Prop :=
| R_nil : forall pv, Replaced pv [] []
| R_keep : forall pv c s o,
    Replaced (Some c) s o -> Replaced pv (c :: s) (c :: o)
| R_tok : forall pv u v o,
    timecode u = true -> word_opt pv = false ->
    word_opt (hd_error v) = false ->
    Replaced (last_opt pv u) v o -> Replaced pv (u ++ v) (32%N :: o).

(** [HH:MM:SS.mmm] at the head of [s]. *)
Definition clock_at (s : text) : bool :=
  match s with
  | a :: b :: c1 :: d :: e :: c2 :: f :: g :: p :: h :: i :: j :: _ =>
      is_decimal a && is_decimal b && N.eqb c1 58
      && is_decimal d && is_decimal e && N.eqb c2 58
      && is_decimal f && is_decimal g && N.eqb p 46
      && is_decimal h && is_decimal i && is_decimal j
  | _ => false
  end.

(** A timing-range line: a clock, an arrow and a clock, with optional
    whitespace around the arrow and anything after the second clock. *)
Definition timing_line (s : text) : bool :=
  clock_at s
  && (let r := lstrip (skipn 12 s) in
      startswith r (str "-->") && clock_at (lstrip (skipn 3 r))).




(** A pattern without [^]. *)
Fixpoint bol_free (r : regex) : bool :=
  match r with
  | Bol => false
  | Seq a b | Alt a b => bol_free a && bol_free b
  | Grp _ a => bol_free a
  | _ => true
  end.

(** The code points a timecode is made of. *)
Definition tokchar (c : cp) : bool :=
  is_decimal c || N.eqb c 58 || N.eqb c 46.

(** [VTT_INLINE_TS.sub(" ", s)] for a text [s] that stands after [pv]. *)
Definition blank_from (pv : option cp) (s : text) : text :=
  sub_go VTT_INLINE_TS (str " ") pv s 0.



(** A text without whitespace. *)
Definition solid (s : text) : bool := forallb (fun c => negb (is_space c)) s.





(** ** Sample values *)


Definition two_candidates : text :=
  str "{bad} {" ++ dq ++ str "a" ++ dq ++ str ": 1}".

Definition upper_fence : text :=
  str "```JSON" ++ nl ++ str "{" ++ dq ++ str "a" ++ dq ++ str ": 1}" ++ nl
  ++ str "```".

Definition day0 : date := mkdate 2024 6 15.


Definition one_item_response : text :=
  str "{" ++ dq ++ str "summary" ++ dq ++ str ": " ++ dq ++ str "ok" ++ dq
  ++ str ", " ++ dq ++ str "items" ++ dq ++ str ": [{" ++ dq ++ str "action"
  ++ dq ++ str ": " ++ dq ++ str "ship" ++ dq ++ str "}]}".

(** ** The results table

    The rows that the two analysis loops of [app.py] append to the
    session, and what the push loop makes of them. *)

(** [x.get(key, dflt)]: only a [dict] has the method. *)
Definition py_get_or (x : value) (key : string) (dflt : value) : res value :=
  match x with
  | JObj kv =>
      Ok (match dict_get kv (str key) with Some v => v | None => dflt end)
  | _ => Raise AttributeError
  end.

(** A row of the table, with the columns of [RESULT_COLS]. *)
Record row : Type :=
  mkrow { File : text; Summary : value; Action : value; Owner : value;
          Due : value }.

(** The row appended for one item. *)
Definition item_row (name : text) (summary it : value) : res row :=
  a <- py_get_or it "action" (JStr []) ;;
  o <- py_get_or it "owner" (JStr NONE) ;;
  d <- py_get_or it "due" (JStr NONE) ;;
  Ok (mkrow name summary a o d).

(** The loop [for it in data["items"]]: the table after it, and the
    exception that ended it, if any; rows appended before an exception
    stay in the table. *)
Fixpoint item_rows (name : text) (summary : value) (its : list value)
    (rows : list row) : list row * option exn :=
  match its with
  | [] => (rows, None)
  | it :: rest =>
      match item_row name summary it with
      | Ok r => item_rows name summary rest (rows ++ [r])
      | Raise e => (rows, Some e)
      end
  end.

(** The row appended when the analysis has no items. *)
Definition placeholder_row (name : text) (summary : value) : row :=
  mkrow name summary (JStr []) (JStr NONE) (JStr NONE).

(** What both loops do with the result [data] of the analysis of the
    file [name]. *)
Definition append_rows (name : text) (data : value) (rows : list row)
    : list row * option exn :=
  match py_get data "items" with
  | Raise e => (rows, Some e)
  | Ok items =>
      match py_get_or data "summary" (JStr []) with
      | Raise e => (rows, Some e)
      | Ok summary =>
          if truthy items then
            match py_iter items with
            | Raise e => (rows, Some e)
            | Ok its => item_rows name summary its rows
            end
          else (rows ++ [placeholder_row name summary], None)
      end
  end.

(** One turn of the loop over the uploaded files. *)
Definition analyze_upload (llm : text -> text) (today : date) (up : upload)
    (rows : list row) : list row * option exn :=
  match analyze_transcript llm today (read_uploaded_text up) with
  | Raise e => (rows, Some e)
  | Ok data => append_rows (up_name up) data rows
  end.

(** A row whose cells are strings, as [row["Action"][:255]] and the
    notes of a task take them. *)
Record trow : Type :=
  mktrow { t_file : text; t_summary : text; t_action : text;
           t_owner : text; t_due : text }.


(** [str(n)] for a number [n] that is not negative. *)
Fixpoint dec_go (fuel : nat) (n : N) : text :=
  match fuel with
  | 0 => []
  | S f => (if N.ltb n 10 then [] else dec_go f (n / 10)) ++ [(48 + n mod 10)%N]
  end.

Definition decimal (n : N) : text := dec_go (S (N.to_nat (N.log2 n))) n.

(** The option of the selection box for the row of index [i]. *)
Definition label (i : N) (r : trow) : text :=
  decimal i ++ str ": " ++ t_action r.

Fixpoint labels_from (i : N) (t : list trow) : list text :=
  match t with
  | [] => []
  | r :: t' => label i r :: labels_from (i + 1) t'
  end.

Definition options (t : list trow) : list text := labels_from 0 t.



(** [s.split(c)] for a separator of one code point. *)
Fixpoint split_on (c : cp) (s : text) : list text :=
  match s with
  | [] => [[]]
  | x :: s' =>
      if N.eqb x c then [] :: split_on c s'
      else
        match split_on c s' with
        | l :: ls => (x :: l) :: ls
        | [] => [[x]]
        end
  end.

(** The whitespace [int] skips around a number: the ASCII blanks, and
    the whitespace beyond ASCII. *)
Definition int_space (c : cp) : bool :=
  in_range 9 13 c || N.eqb c 32 || (N.leb 127 c && is_space c).

Fixpoint drop_while (p : cp -> bool) (s : text) : text :=
  match s with
  | c :: s' => if p c then drop_while p s' else s
  | [] => []
  end.

Definition int_trim (s : text) : text :=
  rev (drop_while int_space (rev (drop_while int_space s))).

(** The digits of a number, single underscores between them allowed: the
    value and the number of digits. *)
Fixpoint int_digits (acc : N) (n : nat) (after_digit : bool) (s : text)
    : option (N * nat) :=
  match s with
  | [] => if after_digit then Some (acc, n) else None
  | c :: s' =>
      if is_decimal c then int_digits (acc * 10 + (c - 48)) (S n) true s'
      else if N.eqb c 95 && after_digit then int_digits acc n false s'
      else None
  end.

(** [int(s)] on a string; [None] is its [ValueError], which a number of
    more than 4300 digits also raises. *)
Definition py_int (s : text) : option Z :=
  let t := int_trim s in
  let signed :=
    match t with
    | c :: r =>
        if N.eqb c 45 then (true, r)
        else if N.eqb c 43 then (false, r) else (false, t)
    | [] => (false, [])
    end in
  match int_digits 0 0 false (snd signed) with
  | Some (v, n) =>
      if Nat.leb n 4300
      then Some (if fst signed then (- Z.of_N v)%Z else Z.of_N v)
      else None
  | None => None
  end.

(** [df.iloc[z]]: a negative index counts from the end; [None] is the
    [IndexError]. *)
Definition iloc (t : list trow) (z : Z) : option trow :=
  if Z.leb 0 z then nth_error t (Z.to_nat z)
  else if Z.leb (- z) (Z.of_nat (length t))
       then nth_error t (length t - Z.to_nat (- z))
       else None.

Definition task_notes (meeting_title : text) (r : trow) : text :=
  meeting_title ++ nl ++ str "Owner: " ++ t_owner r ++ nl
  ++ str "File: " ++ t_file r ++ nl ++ nl ++ str "Summary:" ++ nl
  ++ t_summary r.

(** [row["Due"] if row["Due"] else "None"]. *)
Definition task_due (r : trow) : text :=
  match t_due r with [] => NONE | d => d end.

(** The task created for a row, none for a row without action. *)
Definition row_task (meeting_title : text) (r : trow)
    : option (list (text * value)) :=
  match t_action r with
  | [] => None
  | a => Some (task_body (firstn 255 a) (task_notes meeting_title r)
                 (task_due r))
  end.



(** [str.replace] of one code point by another. *)
Definition replace_cp (a b : cp) (s : text) : text :=
  List.map (fun c => if N.eqb c a then b else c) s.

(** The name of the CSV download. *)
Definition csv_name (meeting_title : text) : text :=
  replace_cp 32%N 95%N meeting_title ++ str "_actions.csv".



Definition sample_table : list trow :=
  [mktrow (str "a.vtt") (str "ok") (str "ship: 1:1 with Bob") (str "Ann") (str "2024-06-20");
   mktrow (str "b.txt") (str "none") [] NONE NONE;
   mktrow (str "c.txt") (str "ok") NONE NONE NONE].

(** The length of the lines of a list, each counted with one separator. *)
Fixpoint weight (ls : list text) : nat :=
  match ls with
  | [] => 0
  | l :: ls' => S (length l) + weight ls'
  end.

(** ** The candidates of the recoverer, read off directly *)

(** Index of the last occurrence of [x] in [s]. *)
Fixpoint last_pos (x : cp) (s : text) : option nat :=
  match s with
  | [] => None
  | c :: s' =>
      match last_pos x s' with
      | Some i => Some (S i)
      | None => if N.eqb c x then Some 0 else None
      end
  end.

(** Length of the span that opens with [a] at the head of [s] and runs
    to the last [b] behind it. *)
Definition closed_span (a b : cp) (s : text) : option nat :=
  match s with
  | c :: s' =>
      if N.eqb c a
      then match last_pos b s' with Some i => Some (i + 2) | None => None end
      else None
  | [] => None
  end.

(** Length of the candidate at the head of [s]: braces first, then
    brackets. *)
Definition bare_here (s : text) : option nat :=
  match closed_span 123%N 125%N s with
  | Some n => Some n
  | None => closed_span 91%N 93%N s
  end.

(** [x in s] for a code point [x]. *)
Definition has (x : cp) (s : text) : bool := existsb (N.eqb x) s.

(** How many of the two closing code points occur in [s]. *)
Definition closers (s : text) : nat :=
  (if has 125%N s then 1 else 0) + (if has 93%N s then 1 else 0).

(** No opening brace or bracket in [s]. *)
Definition no_opener (s : text) : bool :=
  negb (existsb (fun c => N.eqb c 123 || N.eqb c 91) s).

(** A text that opens with a brace and ends with the closing brace, or
    opens with a bracket and ends with the closing bracket. *)
Definition delimited (g : text) : bool :=
  match g with
  | a :: r =>
      (N.eqb a 123 && N.eqb (last r 0%N) 125)
      || (N.eqb a 91 && N.eqb (last r 0%N) 93)
  | [] => false
  end.

(** ** Credentials

    The two credential helpers, [ensure_creds] of [app.py] and
    [get_drive_service] of [ingest_meet.py], over the answers of the
    outside world. *)

(** What the helpers read of a [Credentials] object; [cr_id] tells one
    object from another. *)
Record cred : Type :=
  mkcred { cr_valid : bool; cr_expired : bool; cr_refresh_token : bool;
           cr_id : nat }.

(** The outside world: whether the token file is there, what loading it
    gives ([None] when [from_authorized_user_file] raises), the
    credentials after [refresh] ([None] when it raises), whether
    [credentials.json] is there, what the interactive flow gives ([None]
    when it raises), and whether the token file can be written. *)
Record world : Type :=
  mkworld { w_token_exists : bool; w_load : option cred;
            w_refresh : cred -> option cred; w_secrets_exist : bool;
            w_flow : option cred; w_write_ok : bool }.

(** What a helper does besides returning: the two messages of
    [st.error], and the token file written. *)
Inductive event : Type :=
| MissingSecrets : event
| OAuthFailed : event
| TokenWritten : cred -> event.

(** The branch [if not creds:] of [ensure_creds]. *)
Definition interactive (w : world) : option cred * list event :=
  if negb (w_secrets_exist w) then (None, [MissingSecrets])
  else
    match w_flow w with
    | None => (None, [OAuthFailed])
    | Some c =>
        if w_write_ok w then (Some c, [TokenWritten c])
        else (None, [OAuthFailed])
    end.

(** [ensure_creds]: the credentials returned, [None] as in the source,
    and what was done. *)
Definition ensure_creds (w : world) : option cred * list event :=
  match (if w_token_exists w then w_load w else None) with
  | Some c =>
      if cr_valid c then (Some c, [])
      else if cr_expired c && cr_refresh_token c then
        match w_refresh w c with
        | Some c' => (Some c', [])
        | None => interactive w
        end
      else (Some c, [])
  | None => interactive w
  end.

(** The end of [get_drive_service]: the token file is written and the
    service built; [None] stands for an exception that leaves the
    function. *)
Definition save_token (w : world) (c : cred) : option cred * list event :=
  if w_write_ok w then (Some c, [TokenWritten c]) else (None, []).

(** [get_drive_service]: the credentials the service is built with. A
    missing file makes the loader raise. *)
Definition get_drive_service (w : world) : option cred * list event :=
  let run_flow :=
    match (if w_secrets_exist w then w_flow w else None) with
    | Some c => save_token w c
    | None => (None, [])
    end in
  match (if w_token_exists w then w_load w else None) with
  | Some c =>
      if cr_valid c then (Some c, [])
      else if cr_expired c && cr_refresh_token c then
        match w_refresh w c with
        | Some c' => save_token w c'
        | None => (None, [])
        end
      else run_flow
  | None => run_flow
  end.

(** ** Files listed by Drive *)

Inductive index_exn : Type := KeyError | NotSubscriptable.

(** [f[key]] for a string [key]: only a [dict] can be indexed so. *)
Definition item (f : value) (key : string) : value + index_exn :=
  match f with
  | JObj kv =>
      match dict_get kv (str key) with
      | Some v => inl v
      | None => inr KeyError
      end
  | _ => inr NotSubscriptable
  end.

(** [f["name"] == name] for a string [name]. *)
Definition named (name : text) (n : value) : bool :=
  match n with
  | JStr s => text_eqb s name
  | _ => false
  end.

(** [next((f for f in drive_files if f["name"] == name), None)]. *)
Fixpoint find_named (fs : list value) (name : text)
    : option value + index_exn :=
  match fs with
  | [] => inl None
  | f :: fs' =>
      match item f "name" with
      | inr e => inr e
      | inl n => if named name n then inl (Some f) else find_named fs' name
      end
  end.

Definition stale_cred : cred := mkcred false false true 7.

Definition stale_world : world :=
  mkworld true (Some stale_cred) (fun _ => None) true
    (Some (mkcred true false true 8)) true.

Definition twin_files : list value :=
  [JObj [(str "id", JStr (str "A")); (str "name", JStr (str "sync.vtt"))];
   JObj [(str "id", JStr (str "B")); (str "name", JStr (str "sync.vtt"))]].

(** * Properties *)

(** ** The matcher against its specification *)

Section MatcherTheory.
Variable R : Type.

Lemma rep_greedy_sound p : forall s lo hi (k : pstate -> option R) pv o x,
  rep_greedy p lo hi k pv s o = Some x ->
  exists n st', lo <= n /\ within hi n /\ RepM p n (mkp pv s o) st'
                /\ k st' = Some x.
Proof.
  induction s as [|c s IH]; intros lo hi k pv o x H; simpl in H.
  - destruct lo; [|discriminate].
    exists 0, (mkp pv [] o). repeat split; auto. destruct hi; simpl; lia.
  - assert (Hstop : match lo with 0 => k (mkp pv (c :: s) o) | S _ => None end = Some x ->
      exists n st', lo <= n /\ within hi n /\ RepM p n (mkp pv (c :: s) o) st' /\ k st' = Some x).
    { intros E. destruct lo; [|discriminate].
      exists 0, (mkp pv (c :: s) o). repeat split; auto. destruct hi; simpl; lia. }
    destruct (p c && hi_ok hi) eqn:E; [|auto].
    apply andb_true_iff in E. destruct E as [Ep Eh].
    destruct (rep_greedy p (pred lo) (option_map pred hi) k (Some c) s (S o)) eqn:E2; [|auto].
    inversion H; subst r. apply IH in E2.
    destruct E2 as (n & st' & Hlo & Hhi & HM & Hk).
    exists (S n), st'. repeat split; auto; try lia.
    + destruct hi as [[|h]|]; simpl in *; try discriminate; lia.
    + simpl. exists c, s. auto.
Qed.

Lemma rep_lazy_sound p : forall s lo hi (k : pstate -> option R) pv o x,
  rep_lazy p lo hi k pv s o = Some x ->
  exists n st', lo <= n /\ within hi n /\ RepM p n (mkp pv s o) st'
                /\ k st' = Some x.
Proof.
  induction s as [|c s IH]; intros lo hi k pv o x H; simpl in H.
  - destruct lo; [|discriminate].
    destruct (k (mkp pv [] o)) eqn:E; [|discriminate]. inversion H; subst.
    exists 0, (mkp pv [] o). repeat split; auto. destruct hi; simpl; lia.
  - destruct (match lo with 0 => k (mkp pv (c :: s) o) | S _ => None end) eqn:E.
    + inversion H; subst. destruct lo; [|discriminate].
      exists 0, (mkp pv (c :: s) o). repeat split; auto. destruct hi; simpl; lia.
    + destruct (p c && hi_ok hi) eqn:E1; [|discriminate].
      apply andb_true_iff in E1. destruct E1 as [Ep Eh].
      apply IH in H. destruct H as (n & st' & Hlo & Hhi & HM & Hk).
      exists (S n), st'. repeat split; auto; try lia.
      * destruct hi as [[|h]|]; simpl in *; try discriminate; lia.
      * simpl. exists c, s. auto.
Qed.

Lemma rep_greedy_complete p : forall n s lo hi (k : pstate -> option R) pv o st',
  RepM p n (mkp pv s o) st' -> lo <= n -> within hi n -> k st' <> None ->
  rep_greedy p lo hi k pv s o <> None.
Proof.
  induction n as [|n IH]; intros s lo hi k pv o st' HM Hlo Hhi Hk.
  - simpl in HM. subst st'. assert (lo = 0) by lia. subst lo.
    destruct s as [|c s]; simpl; auto.
    destruct (p c && hi_ok hi); auto.
    destruct (rep_greedy p 0 (option_map pred hi) k (Some c) s (S o)); auto.
    discriminate.
  - simpl in HM. destruct HM as (c & s' & Hr & Hp & HM). simpl in Hr. subst s.
    simpl. rewrite Hp.
    assert (Hh : hi_ok hi = true).
    { destruct hi as [[|h]|]; simpl in *; auto; lia. }
    rewrite Hh. simpl.
    assert (G : rep_greedy p (pred lo) (option_map pred hi) k (Some c) s' (S o) <> None).
    { eapply IH; eauto; try lia. destruct hi as [[|h]|]; simpl in *; auto; lia. }
    destruct (rep_greedy p (pred lo) (option_map pred hi) k (Some c) s' (S o));
      [discriminate | congruence].
Qed.

Lemma rep_lazy_complete p : forall n s lo hi (k : pstate -> option R) pv o st',
  RepM p n (mkp pv s o) st' -> lo <= n -> within hi n -> k st' <> None ->
  rep_lazy p lo hi k pv s o <> None.
Proof.
  induction n as [|n IH]; intros s lo hi k pv o st' HM Hlo Hhi Hk.
  - simpl in HM. subst st'. assert (lo = 0) by lia. subst lo.
    destruct s as [|c s]; simpl.
    + destruct (k (mkp pv [] o)); [discriminate | congruence].
    + destruct (k (mkp pv (c :: s) o)); [discriminate | congruence].
  - simpl in HM. destruct HM as (c & s' & Hr & Hp & HM). simpl in Hr. subst s.
    simpl.
    destruct (match lo with 0 => k (mkp pv (c :: s') o) | S _ => None end);
      [discriminate|].
    rewrite Hp.
    assert (Hh : hi_ok hi = true).
    { destruct hi as [[|h]|]; simpl in *; auto; lia. }
    rewrite Hh. simpl.
    eapply IH; eauto; try lia. destruct hi as [[|h]|]; simpl in *; auto; lia.
Qed.

(** Soundness: a result of the matcher comes from a match of the
    pattern. *)
Lemma mt_sound : forall r (k : caps -> pstate -> option R) cs st x,
  mt r k cs st = Some x ->
  exists cs' st', Mt r st st' /\ k cs' st' = Some x.
Proof.
  induction r as [|p|a IHa b IHb|a IHa b IHb|g lo hi p| | |i a IHa];
    intros k cs st x H; simpl in H.
  - exists cs, st. simpl; auto.
  - destruct (rest st) as [|c s'] eqn:E; [discriminate|].
    destruct (p c) eqn:Ep; [|discriminate].
    exists cs, (adv c s' st). split; auto. simpl. exists c, s'. auto.
  - apply IHa in H. destruct H as (cs1 & m & Ha & H).
    apply IHb in H. destruct H as (cs2 & st' & Hb & H).
    exists cs2, st'. split; auto. simpl. exists m. auto.
  - destruct (mt a k cs st) eqn:E.
    + inversion H; subst. apply IHa in E. destruct E as (cs1 & st' & Ha & E).
      exists cs1, st'. simpl; auto.
    + apply IHb in H. destruct H as (cs1 & st' & Hb & E').
      exists cs1, st'. simpl; auto.
  - destruct st as [pv s o]. simpl in H.
    destruct g; [apply rep_greedy_sound in H | apply rep_lazy_sound in H];
      destruct H as (n & st' & Hlo & Hhi & HM & Hk);
      exists cs, st'; split; auto; simpl; exists n; auto.
  - destruct (at_boundary st) eqn:E; [|discriminate].
    exists cs, st. simpl; auto.
  - destruct (prev st) eqn:E; [discriminate|].
    exists cs, st. simpl; auto.
  - apply IHa in H. destruct H as (cs1 & st' & Ha & H).
    exists ((i, (off st, off st')) :: cs1), st'. simpl; auto.
Qed.

(** Completeness: where the pattern has a match that the continuation
    accepts, the matcher finds a result. *)
Lemma mt_complete : forall r (k : caps -> pstate -> option R) cs st st',
  Mt r st st' -> (forall cs', k cs' st' <> None) -> mt r k cs st <> None.
Proof.
  induction r as [|p|a IHa b IHb|a IHa b IHb|g lo hi p| | |i a IHa];
    intros k cs st st' HM Hk; simpl in HM; simpl.
  - subst. auto.
  - destruct HM as (c & s' & Hr & Hp & ->). rewrite Hr, Hp. auto.
  - destruct HM as (m & Ha & Hb). eapply IHa; eauto.
  - destruct (mt a k cs st) eqn:E; [discriminate|].
    destruct HM as [Ha | Hb].
    + exfalso. eapply IHa; eauto.
    + eapply IHb; eauto.
  - destruct HM as (n & Hlo & Hhi & HM). destruct st as [pv s o].
    destruct g; [eapply rep_greedy_complete | eapply rep_lazy_complete]; eauto.
  - destruct HM as [-> Hb]. rewrite Hb. auto.
  - destruct HM as [-> Hb]. rewrite Hb. auto.
  - eapply IHa; eauto.
Qed.

End MatcherTheory.

(** ** Equality of texts and dictionaries *)

Lemma text_eqb_eq : forall a b, text_eqb a b = true <-> a = b.
Proof.
  induction a as [|x a IH]; destruct b as [|y b]; simpl; split; intros H;
    try discriminate; auto.
  - apply andb_true_iff in H. destruct H as [H1 H2].
    apply N.eqb_eq in H1. apply IH in H2. congruence.
  - inversion H; subst. rewrite N.eqb_refl. simpl. apply IH. reflexivity.
Qed.

Lemma text_eqb_refl : forall a, text_eqb a a = true.
Proof. intros a. apply text_eqb_eq. reflexivity. Qed.

Lemma text_eqb_neq : forall a b, text_eqb a b = false <-> a <> b.
Proof.
  intros a b. split; intros H.
  - intros E. apply text_eqb_eq in E. congruence.
  - destruct (text_eqb a b) eqn:E; auto. apply text_eqb_eq in E. contradiction.
Qed.

Lemma text_eqb_sym : forall a b, text_eqb a b = text_eqb b a.
Proof.
  intros a b. destruct (text_eqb a b) eqn:E.
  - apply text_eqb_eq in E. subst. symmetry. apply text_eqb_refl.
  - symmetry. apply text_eqb_neq. apply text_eqb_neq in E. congruence.
Qed.

Lemma dict_get_set_same : forall kv k v, dict_get (dict_set kv k v) k = Some v.
Proof.
  induction kv as [|[k' w] kv IH]; intros k v; simpl.
  - rewrite text_eqb_refl. reflexivity.
  - destruct (text_eqb k' k) eqn:E; simpl; rewrite E; auto.
Qed.

Lemma dict_get_set_other : forall kv k k' v,
  k <> k' -> dict_get (dict_set kv k v) k' = dict_get kv k'.
Proof.
  induction kv as [|[k0 w] kv IH]; intros k k' v Hne; simpl.
  - apply text_eqb_neq in Hne. rewrite Hne. reflexivity.
  - destruct (text_eqb k0 k) eqn:E; simpl.
    + apply text_eqb_eq in E. subst k0.
      apply text_eqb_neq in Hne. rewrite Hne. reflexivity.
    + destruct (text_eqb k0 k'); auto.
Qed.

(** ** Task creation *)

(** C8: the body handed to the task service has a [due] entry exactly
    when the due value is not the placeholder ["None"], and the entry is
    then the due value followed by ["T09:00:00.000Z"]. *)
Theorem task_body_due : forall title notes due_iso,
  dict_get (task_body title notes due_iso) (str "due")
  = (if text_eqb due_iso NONE then None
     else Some (JStr (due_iso ++ str "T09:00:00.000Z")))
  /\ (dict_get (task_body title notes due_iso) (str "due") = None
      <-> due_iso = NONE).
Proof.
  intros title notes due_iso.
  assert (E : dict_get (task_body title notes due_iso) (str "due")
    = (if text_eqb due_iso NONE then None
       else Some (JStr (due_iso ++ str "T09:00:00.000Z")))).
  { unfold task_body. destruct (text_eqb due_iso NONE) eqn:E; simpl.
    - destruct notes; reflexivity.
    - apply dict_get_set_same. }
  split; [exact E|]. rewrite E.
  destruct (text_eqb due_iso NONE) eqn:E1.
  - apply text_eqb_eq in E1. tauto.
  - apply text_eqb_neq in E1. split; [discriminate | contradiction].
Qed.

(** ** Ingestion *)




(** ** The recoverer on concrete responses *)


(** C1 at a failing input: [{bad} {"a": 1}] has two brace-delimited
    candidates of which only the second decodes, yet the greedy pattern
    yields one candidate spanning both, and the recoverer returns [None]. *)
Theorem greedy_candidate_spans_both :
  findall BARE_JSON two_candidates = [two_candidates]
  /\ Json.loads (str "{bad}") = None
  /\ Json.loads (str "{" ++ dq ++ str "a" ++ dq ++ str ": 1}")
     = Some (JObj [(str "a", JInt 1)])
  /\ extract_json two_candidates = JNull.
Proof. repeat split; vm_compute; reflexivity. Qed.

Lemma get_items_not_object : forall v,
  (forall kv, v <> JObj kv) -> get_items v = Raise AttributeError.
Proof. intros [] H; try reflexivity. exfalso. eapply H; reflexivity. Qed.

(** C9: when the recoverer returns a non-empty array, the pipeline raises
    on reading [items]. *)
Theorem array_response_raises : forall today raw l,
  extract_json raw = JArr l -> l <> [] ->
  analyze_response today raw = Raise AttributeError.
Proof.
  intros today raw l E Hl. unfold analyze_response. rewrite E.
  destruct l; [contradiction|]. reflexivity.
Qed.

Lemma array_response_raises_witness :
  extract_json (str "[1]") = JArr [JInt 1]
  /\ analyze_response (mkdate 2024 6 15) (str "[1]") = Raise AttributeError.
Proof.
  split; [vm_compute; reflexivity|].
  apply (array_response_raises (mkdate 2024 6 15) (str "[1]") (l := [JInt 1]));
    [vm_compute; reflexivity | discriminate].
Defined.

(** ** Literals, searching and containment *)

Lemma startswith_app : forall p s, startswith (p ++ s) p = true.
Proof.
  induction p as [|x p IH]; intros s; simpl.
  - destruct s; reflexivity.
  - rewrite N.eqb_refl. simpl. apply IH.
Qed.

Lemma startswith_split : forall p s,
  startswith s p = true -> exists v, s = p ++ v.
Proof.
  induction p as [|x p IH]; intros s H.
  - exists s. reflexivity.
  - destruct s as [|y s]; simpl in H; [discriminate|].
    apply andb_true_iff in H. destruct H as [H1 H2].
    apply N.eqb_eq in H1. subst y.
    destruct (IH _ H2) as [v ->]. exists v. reflexivity.
Qed.

Lemma contains_app : forall pre suf p,
  startswith suf p = true -> contains (pre ++ suf) p = true.
Proof.
  induction pre as [|c pre IH]; intros suf p H; simpl.
  - destruct suf; simpl; simpl in H; rewrite H; reflexivity.
  - rewrite (IH _ _ H). apply orb_true_r.
Qed.

Lemma contains_split : forall s p,
  contains s p = true -> exists pre v, s = pre ++ p ++ v.
Proof.
  induction s as [|c s IH]; intros p H.
  - destruct p; simpl in H; [|discriminate]. exists [], []. reflexivity.
  - cbn [contains] in H. apply orb_true_iff in H. destruct H as [H | H].
    + apply startswith_split in H. destruct H as [v ->].
      exists [], v. reflexivity.
    + destruct (IH _ H) as (pre & v & ->). exists (c :: pre), v. reflexivity.
Qed.

Lemma Mt_lit : forall w st st',
  Mt (lit w) st st' -> rest st = str w ++ rest st'.
Proof.
  induction w as [|a w IH]; intros st st' H.
  - simpl in H. subst. reflexivity.
  - change (lit (String a w)) with (Seq (chr a) (lit w)) in H.
    simpl in H. destruct H as (m & (c & s' & Hr & Hc & ->) & H).
    apply IH in H. simpl in H. apply N.eqb_eq in Hc. subst c.
    rewrite Hr, H. reflexivity.
Qed.

Lemma search_from_some : forall r s pv o x,
  search_from r pv s o = Some x ->
  exists pre suf pv' o', s = pre ++ suf
    /\ match_here r (mkp pv' suf o') <> None.
Proof.
  induction s as [|c s IH]; intros pv o x H; simpl in H.
  - destruct (match_here r (mkp pv [] o)) as [[e cs]|] eqn:E; [|discriminate].
    exists [], [], pv, o. split; auto. congruence.
  - destruct (match_here r (mkp pv (c :: s) o)) as [[e cs]|] eqn:E.
    + exists [], (c :: s), pv, o. split; auto. congruence.
    + apply IH in H. destruct H as (pre & suf & pv' & o' & -> & H).
      exists (c :: pre), suf, pv', o'. split; auto.
Qed.

(** A match of a pattern that opens with a literal is found only where
    the literal stands. *)
Lemma search_literal_prefix : forall w r t x,
  search (Seq (lit w) r) t = Some x -> contains t (str w) = true.
Proof.
  intros w r t x H. apply search_from_some in H.
  destruct H as (pre & suf & pv' & o' & -> & H).
  unfold match_here in H.
  destruct (mt (Seq (lit w) r) (fun cs st' => Some (off st', cs)) []
              (mkp pv' suf o')) eqn:E; [|congruence].
  apply mt_sound in E. destruct E as (cs' & st' & HM & _).
  simpl in HM. destruct HM as (m & Hl & _).
  apply Mt_lit in Hl. simpl in Hl. apply contains_app.
  rewrite Hl. apply startswith_app.
Qed.


(** C10: the fenced step needs the label in lower case: on a text that
    nowhere holds three backquotes followed by [json], step 1 finds no
    block and the result is that of the candidate scan. *)
Theorem fence_label_case_sensitive : forall t,
  contains t (str "```json") = false ->
  fenced_block t = None /\ extract_json t = scan_candidates t.
Proof.
  intros t H.
  assert (E : fenced_block t = None).
  { unfold fenced_block. destruct (search FENCED_JSON t) as [[[b e] cs]|] eqn:E;
      [|reflexivity].
    unfold FENCED_JSON in E. apply search_literal_prefix in E. congruence. }
  split; [exact E|]. unfold extract_json. rewrite E. reflexivity.
Qed.

Lemma fence_label_case_sensitive_witness :
  contains upper_fence (str "```json") = false
  /\ fenced_block upper_fence = None
  /\ extract_json upper_fence = scan_candidates upper_fence
  /\ scan_candidates upper_fence = JObj [(str "a", JInt 1)].
Proof.
  split; [vm_compute; reflexivity|].
  split; [apply (fence_label_case_sensitive upper_fence); vm_compute; reflexivity|].
  split; [apply (fence_label_case_sensitive upper_fence); vm_compute; reflexivity|].
  vm_compute; reflexivity.
Defined.

(** ** The date pattern *)

Lemma all_iso_agree : forallb strptime_agrees all_iso = true.
Proof. vm_compute. reflexivity. Qed.

(** ** Matches as spans *)

Lemma last_opt_app : forall u1 u2 l,
  last_opt l (u1 ++ u2) = last_opt (last_opt l u1) u2.
Proof. intros. unfold last_opt. apply fold_left_app. Qed.

Lemma after_nil : forall st, after st [] (rest st) = st.
Proof.
  intros [pv s o]. unfold after. simpl. f_equal. apply Nat.add_0_r.
Qed.

Lemma RepM_span : forall p n st st',
  RepM p n st st' ->
  exists u, rest st = u ++ rest st' /\ st' = after st u (rest st')
            /\ forallb p u = true /\ length u = n.
Proof.
  induction n as [|n IH]; intros st st' H; simpl in H.
  - subst st'. exists []. rewrite after_nil. auto.
  - destruct H as (c & s' & Hr & Hp & H). apply IH in H.
    destruct H as (u & Hu & Hs & Hf & Hl). simpl in Hu.
    exists (c :: u). simpl. rewrite Hp, Hf, Hl, Hr, Hu. repeat split; auto.
    rewrite Hs at 1. unfold after, adv. simpl. f_equal. lia.
Qed.

Lemma RepM_of_span : forall p u st v,
  rest st = u ++ v -> forallb p u = true ->
  RepM p (length u) st (after st u v).
Proof.
  induction u as [|c u IH]; intros st v Hr Hf; simpl.
  - destruct st as [pv s o]. simpl in *. subst s. unfold after. simpl.
    f_equal. apply Nat.add_0_r.
  - simpl in Hf. apply andb_true_iff in Hf. destruct Hf as [Hc Hf].
    exists c, (u ++ v). repeat split; auto.
    replace (after st (c :: u) v) with (after (adv c (u ++ v) st) u v).
    + apply IH; auto.
    + unfold after, adv. simpl. f_equal. lia.
Qed.

(** The two specifications agree. *)
Lemma Mt_Ms : forall r st st',
  Mt r st st' ->
  exists u, rest st = u ++ rest st' /\ st' = after st u (rest st')
            /\ Ms r (prev st) u (rest st').
Proof.
  induction r as [|p|a IHa b IHb|a IHa b IHb|g lo hi p| | |i a IHa];
    intros st st' H; simpl in H.
  - subst. exists []. rewrite after_nil. simpl. auto.
  - destruct H as (c & s' & Hr & Hp & ->). exists [c]. simpl.
    repeat split; eauto. unfold after, adv. simpl. f_equal. lia.
  - destruct H as (m & Ha & Hb).
    apply IHa in Ha. destruct Ha as (u1 & H1 & E1 & M1).
    apply IHb in Hb. destruct Hb as (u2 & H2 & E2 & M2).
    exists (u1 ++ u2). rewrite H1, H2, <- app_assoc. split; auto. split.
    + rewrite E2 at 1. rewrite E1. unfold after. simpl.
      rewrite last_opt_app, length_app. f_equal. lia.
    + simpl. exists u1, u2. rewrite <- H2. repeat split; auto.
      rewrite E1 in M2. exact M2.
  - destruct H as [H | H]; [apply IHa in H | apply IHb in H];
      destruct H as (u & H1 & E1 & M1); exists u; simpl; auto.
  - destruct H as (n & Hlo & Hhi & H). apply RepM_span in H.
    destruct H as (u & Hu & Hs & Hf & Hl). exists u. simpl. subst n. auto.
  - destruct H as [-> Hb]. exists []. rewrite after_nil. simpl. auto.
  - destruct H as [-> Hb]. exists []. rewrite after_nil. simpl. auto.
  - apply IHa in H. exact H.
Qed.

Lemma Ms_Mt : forall r st u v,
  rest st = u ++ v -> Ms r (prev st) u v -> Mt r st (after st u v).
Proof.
  induction r as [|p|a IHa b IHb|a IHa b IHb|g lo hi p| | |i a IHa];
    intros st u v Hr H; simpl in H; simpl.
  - subst u. simpl in Hr. rewrite <- Hr. apply after_nil.
  - destruct H as (c & -> & Hp). exists c, v. repeat split; auto.
    unfold after, adv. simpl. f_equal. lia.
  - destruct H as (u1 & u2 & -> & M1 & M2).
    exists (after st u1 (u2 ++ v)). split.
    + apply IHa; auto. rewrite Hr. symmetry. apply app_assoc.
    + replace (after st (u1 ++ u2) v) with (after (after st u1 (u2 ++ v)) u2 v).
      * apply IHb; auto.
      * unfold after. simpl. rewrite last_opt_app, length_app. f_equal. lia.
  - destruct H as [H | H]; [left; apply IHa | right; apply IHb]; auto.
  - destruct H as (Hf & Hlo & Hhi). exists (length u). repeat split; auto.
    apply RepM_of_span; auto.
  - destruct H as [-> Hb]. simpl in Hr. split.
    + rewrite <- Hr. apply after_nil.
    + unfold at_boundary. rewrite Hr. exact Hb.
  - destruct H as [-> Hb]. simpl in Hr. split; auto.
    rewrite <- Hr. apply after_nil.
  - apply IHa; auto.
Qed.

(** What [match_len] returns is the length of a span the pattern
    matches, and it returns a length wherever the pattern has a match. *)
Lemma match_len_sound : forall r pv s n,
  match_len r pv s = Some n ->
  exists u v, s = u ++ v /\ length u = n /\ Ms r pv u v.
Proof.
  intros r pv s n H. unfold match_len in H. apply mt_sound in H.
  destruct H as (cs' & st' & HM & Hk). inversion Hk; subst n.
  apply Mt_Ms in HM. simpl in HM. destruct HM as (u & Hr & Hs & HM).
  exists u, (rest st'). rewrite Hs. simpl. auto.
Qed.


Lemma match_here_sound : forall r pv s o e cs,
  match_here r (mkp pv s o) = Some (e, cs) ->
  exists u v, s = u ++ v /\ e = o + length u /\ Ms r pv u v.
Proof.
  intros r pv s o e cs H. unfold match_here in H. apply mt_sound in H.
  destruct H as (cs' & st' & HM & Hk). inversion Hk; subst.
  apply Mt_Ms in HM. simpl in HM. destruct HM as (u & Hr & Hs & HM).
  exists u, (rest st'). rewrite Hs. simpl. auto.
Qed.

Lemma match_here_complete : forall r pv u v o,
  Ms r pv u v -> match_here r (mkp pv (u ++ v) o) <> None.
Proof.
  intros r pv u v o H. unfold match_here.
  eapply mt_complete with (st' := after (mkp pv (u ++ v) o) u v).
  - apply Ms_Mt; auto.
  - intros cs'. discriminate.
Qed.

(** ** Character classes *)

Ltac bool_to_prop :=
  repeat match goal with
  | H : _ && _ = true |- _ => apply andb_true_iff in H; destruct H
  | H : _ || _ = true |- _ => apply orb_true_iff in H
  | H : N.leb _ _ = true |- _ => apply N.leb_le in H
  | H : N.eqb _ _ = true |- _ => apply N.eqb_eq in H
  | H : negb _ = true |- _ => apply negb_true_iff in H
  | H : N.eqb _ _ = false |- _ => apply N.eqb_neq in H
  end.

Ltac class_unfold :=
  unfold is_word, is_alnum, is_space, is_decimal, is_digit, is_linebreak,
    Json.is_ws, between, digit, in_range in *.

Ltac class_false :=
  match goal with
  | |- ?b = false =>
      let E := fresh "E" in
      destruct b eqn:E; [exfalso|reflexivity]
  end.

Ltac bcases :=
  repeat match goal with
  | H : _ && _ = true |- _ => apply andb_true_iff in H; destruct H
  | H : _ || _ = true |- _ => apply orb_true_iff in H; destruct H
  | H : N.eqb _ _ = true |- _ => apply N.eqb_eq in H
  end.

Ltac split_ors :=
  repeat match goal with
  | H : _ \/ _ |- _ => destruct H
  end.

Lemma in_range_spec : forall lo hi c,
  in_range lo hi c = true <-> (lo <= c /\ c <= hi)%N.
Proof.
  intros. unfold in_range. rewrite andb_true_iff, !N.leb_le. tauto.
Qed.

Lemma decimal_word : forall c, is_decimal c = true -> is_word c = true.
Proof.
  intros c H. unfold is_word, is_alnum, is_decimal in *. rewrite H. reflexivity.
Qed.

Lemma in_range_decimal : forall lo hi c,
  in_range lo hi c = true -> (48 <= lo)%N -> (hi <= 57)%N ->
  is_decimal c = true.
Proof.
  intros lo hi c H Hlo Hhi. apply in_range_spec in H.
  unfold is_decimal. apply in_range_spec. lia.
Qed.

Lemma space_not_word : forall c, is_space c = true -> is_word c = false.
Proof.
  intros c H. class_false. class_unfold. bool_to_prop.
  repeat match goal with
  | H : _ \/ _ |- _ => destruct H; bool_to_prop; try lia
  end.
Qed.

Lemma space_not_decimal : forall c, is_space c = true -> is_decimal c = false.
Proof.
  intros c H. class_false. apply decimal_word in E.
  rewrite (space_not_word _ H) in E. discriminate.
Qed.


(** ** Reading matches of the patterns of the program *)

Ltac ms_unfold H :=
  unfold chr, lit, times, upto, star, opt, atleast, lazy_star, between,
    digit, any, any_char in H;
  cbn [Ms fold_right list_ascii_of_string] in H.

Ltac norm_codes :=
  repeat match goal with
  | H : context [N_of_ascii ?a] |- _ =>
      let v := eval vm_compute in (N_of_ascii a) in
      change (N_of_ascii a) with v in H
  end.

Ltac ms_inv :=
  repeat match goal with
  | H : Ms _ _ _ _ |- _ => progress (ms_unfold H)
  | H : exists _, _ |- _ => destruct H
  | H : _ /\ _ |- _ => destruct H
  | H : _ \/ _ |- _ => destruct H
  end;
  norm_codes;
  repeat match goal with
  | H : N.eqb _ _ = true |- _ => apply N.eqb_eq in H
  end;
  subst.

Ltac short u :=
  destruct u as [|? [|? [|? [|? u]]]];
  cbn [Datatypes.length forallb within] in *; try lia.

Ltac shorten :=
  repeat match goal with
  | H : forallb _ ?u = true |- _ => is_var u; short u
  end;
  cbn [app] in *;
  repeat match goal with
  | H : _ && _ = true |- _ => apply andb_true_iff in H; destruct H
  end.

Ltac bsolve :=
  match goal with
  | |- _ && _ = true => apply andb_true_iff; split; bsolve
  | |- _ || _ = true =>
      apply orb_true_iff; first [left; solve [bsolve] | right; solve [bsolve]]
  | |- _ => first [assumption | reflexivity]
  end.

Lemma xorb_word_left : forall a c,
  xorb a (is_word c) = true -> is_decimal c = true -> a = false.
Proof.
  intros a c H Hd. rewrite (decimal_word _ Hd) in H. destruct a; auto.
Qed.

Lemma xorb_word_right : forall c b,
  xorb (is_word c) b = true -> is_decimal c = true -> b = false.
Proof.
  intros c b H Hd. rewrite (decimal_word _ Hd) in H. destruct b; auto.
Qed.

Lemma ISO_sound : forall l u rt,
  Ms ISO_DATE_RE l u rt ->
  iso_shape u = true /\ word_opt l = false /\ word_opt (hd_error rt) = false.
Proof.
  intros l u rt H. unfold ISO_DATE_RE in H. ms_inv; shorten.
  all: cbn [hd_error word_opt last_opt fold_left] in *.
  all: split; [unfold iso_shape; bsolve|].
  all: split;
    [ eapply xorb_word_left; [eassumption | reflexivity]
    | eapply xorb_word_right; [eassumption|];
      first [assumption | eapply in_range_decimal; [eassumption | lia | lia]] ].
Qed.

Lemma Ms_seq_at : forall n a b l u rt,
  Ms a l (firstn n u) (skipn n u ++ rt) ->
  Ms b (last_opt l (firstn n u)) (skipn n u) rt ->
  Ms (Seq a b) l u rt.
Proof.
  intros n a b l u rt Ha Hb. simpl. exists (firstn n u), (skipn n u).
  rewrite firstn_skipn. auto.
Qed.

Ltac re_unfold :=
  unfold lit, times, upto, star, opt, atleast, lazy_star;
  cbn [fold_right list_ascii_of_string];
  unfold chr, digit.

Ltac ms_class :=
  first [ assumption | reflexivity
        | eapply in_range_decimal; [eassumption | lia | lia] ].

(** Builds a match of a pattern whose parts have fixed widths. *)
Ltac ms_build :=
  lazymatch goal with
  | |- Ms (Seq ?a ?b) _ _ _ =>
      let w := eval vm_compute in (fixed_width a) in
      lazymatch w with
      | Some ?n =>
          apply (@Ms_seq_at n a b);
          cbn [firstn skipn app last_opt fold_left];
          ms_build
      end
  | |- Ms (Alt _ _) _ _ _ =>
      first [ left; solve [ms_build] | right; solve [ms_build] ]
  | |- Ms (Grp ?i ?a) ?l ?u ?rt => change (Ms a l u rt); ms_build
  | |- Ms (Cls _) _ [?c] _ => exists c; split; [reflexivity | ms_class]
  | |- Ms (Rep _ _ _ _) _ _ _ =>
      cbn [Ms forallb Datatypes.length within];
      repeat split; try lia; bsolve
  | |- Ms Eps _ _ _ => reflexivity
  | |- _ => idtac
  end.

Lemma ISO_complete : forall l u rt,
  iso_shape u = true -> word_opt l = false -> word_opt (hd_error rt) = false ->
  Ms ISO_DATE_RE l u rt.
Proof.
  intros l u rt Hs Hl Hr.
  destruct u as [|a [|b [|c [|d [|h1 [|m1 [|m2 [|h2 [|d1 [|d2 [|? ?]]]]]]]]]]];
    try discriminate.
  unfold iso_shape in Hs. unfold ISO_DATE_RE. re_unfold.
  bcases; subst;
    assert (Hd2 : is_decimal d2 = true) by ms_class;
    ms_build.
  all: split; [reflexivity|]; cbn [hd_error app word_opt];
    rewrite ?Hl, ?Hr, ?(decimal_word _ Hd2); reflexivity.
Qed.

Lemma iso_shape_length : forall u, iso_shape u = true -> length u = 10.
Proof.
  intros u H.
  destruct u as [|a [|b [|c [|d [|h1 [|m1 [|m2 [|h2 [|d1 [|d2 [|? ?]]]]]]]]]]];
    try discriminate. reflexivity.
Qed.

Lemma firstn_app_exact : forall (u v : text) n,
  length u = n -> firstn n (u ++ v) = u /\ skipn n (u ++ v) = v.
Proof.
  intros u v n <-. split.
  - rewrite firstn_app, Nat.sub_diag, firstn_all. simpl. apply app_nil_r.
  - rewrite skipn_app, Nat.sub_diag, skipn_all. reflexivity.
Qed.

(** The date pattern matches at a position exactly when an ISO date
    stands there between non-word neighbours, and the match is ten code
    points long. *)
Lemma ISO_match_here : forall pv s o,
  match match_here ISO_DATE_RE (mkp pv s o) with
  | Some (e, _) => iso_here pv s = true /\ e = o + 10
  | None => iso_here pv s = false
  end.
Proof.
  intros pv s o.
  destruct (match_here ISO_DATE_RE (mkp pv s o)) as [[e cs]|] eqn:E.
  - apply match_here_sound in E. destruct E as (u & v & -> & -> & HM).
    apply ISO_sound in HM. destruct HM as (Hs & Hl & Hr).
    pose proof (iso_shape_length _ Hs) as Hlen.
    destruct (firstn_app_exact u v Hlen) as [F1 F2].
    unfold iso_here. rewrite F1, F2, Hs, Hl, Hr, Hlen. auto.
  - destruct (iso_here pv s) eqn:Hh; [exfalso|reflexivity].
    unfold iso_here in Hh. apply andb_true_iff in Hh. destruct Hh as [Hh Hr].
    apply andb_true_iff in Hh. destruct Hh as [Hs Hl].
    apply negb_true_iff in Hl, Hr.
    pose proof (ISO_complete _ _ _ Hs Hl Hr) as HM.
    apply (match_here_complete _ _ _ _ o) in HM.
    rewrite firstn_skipn in HM. congruence.
Qed.

Lemma search_ISO_first : forall s pv o,
  match search_from ISO_DATE_RE pv s o with
  | Some (b, e, _) =>
      o <= b /\ e = b + 10
      /\ first_iso pv s = Some (firstn 10 (skipn (b - o) s))
  | None => first_iso pv s = None
  end.
Proof.
  induction s as [|c s IH]; intros pv o.
  - cbn [search_from first_iso].
    pose proof (ISO_match_here pv [] o) as H.
    destruct (match_here ISO_DATE_RE (mkp pv [] o)) as [[e cs]|].
    + destruct H as [H ->]. rewrite H, Nat.sub_diag. auto.
    + rewrite H. reflexivity.
  - cbn [search_from first_iso].
    pose proof (ISO_match_here pv (c :: s) o) as H.
    destruct (match_here ISO_DATE_RE (mkp pv (c :: s) o)) as [[e cs]|].
    + destruct H as [H ->]. rewrite H, Nat.sub_diag. auto.
    + rewrite H. specialize (IH (Some c) (S o)).
      destruct (search_from ISO_DATE_RE (Some c) s (S o)) as [[[b e] cs]|]; auto.
      destruct IH as (Hb & He & Hf). repeat split; auto; try lia.
      rewrite Hf. replace (b - o) with (S (b - S o)) by lia. reflexivity.
Qed.

Lemma first_iso_shape : forall s pv u,
  first_iso pv s = Some u -> iso_shape u = true.
Proof.
  induction s as [|c s IH]; intros pv u H; cbn [first_iso] in H.
  - destruct (iso_here pv []) eqn:E; [|discriminate].
    inversion H; subst. unfold iso_here in E. bcases. assumption.
  - destruct (iso_here pv (c :: s)) eqn:E.
    + inversion H; subst. unfold iso_here in E. bcases. assumption.
    + eapply IH; eauto.
Qed.

Lemma code_range_In : forall lo len c,
  (N.of_nat lo <= c)%N -> (c < N.of_nat (lo + len))%N -> In c (code_range lo len).
Proof.
  intros lo len c H1 H2. unfold code_range. apply in_map_iff.
  exists (N.to_nat c). split; [apply N2Nat.id|]. apply in_seq. lia.
Qed.

Ltac in_code_range :=
  match goal with
  | H : in_range _ _ ?c = true |- In ?c (code_range _ _) =>
      apply in_range_spec in H; apply code_range_In; lia
  | H : is_decimal ?c = true |- In ?c (code_range _ _) =>
      apply in_range_spec in H; apply code_range_In; lia
  end.

Lemma iso_shape_listed : forall u, iso_shape u = true -> In u all_iso.
Proof.
  intros u Hs.
  destruct u as [|a [|b [|c [|d [|h1 [|m1 [|m2 [|h2 [|d1 [|d2 [|? ?]]]]]]]]]]];
    try discriminate.
  unfold iso_shape in Hs.
  assert (Hm : In [m1; m2] iso_months).
  { unfold iso_months. apply in_or_app. bcases; subst;
      first [ left; apply in_map_iff; eexists;
              (split; [reflexivity | in_code_range])
            | right; apply in_map_iff; eexists;
              (split; [reflexivity | in_code_range]) ]. }
  assert (Hd : In [d1; d2] iso_days).
  { unfold iso_days. bcases; subst.
    all: try solve [apply in_or_app; left; apply in_map_iff; eexists;
                    (split; [reflexivity | in_code_range])].
    all: try solve [apply in_or_app; right; apply in_or_app; right;
                    apply in_map_iff; eexists;
                    (split; [reflexivity | in_code_range])].
    all: apply in_or_app; right; apply in_or_app; left;
      apply in_flat_map; exists d1; (split; [in_code_range|]);
      apply in_map_iff; eexists; (split; [reflexivity | in_code_range]). }
  bcases; subst.
  all: match goal with
       | Hm : In ?mm iso_months, Hd : In ?dd iso_days |- _ =>
           unfold all_iso; apply in_flat_map; exists c;
           (split; [in_code_range|]);
           apply in_flat_map; exists d; (split; [in_code_range|]);
           apply in_flat_map; exists mm; (split; [assumption|]);
           apply in_map_iff; exists dd; (split; [reflexivity | assumption])
       end.
Qed.

(** On a text of ISO shape [strptime] and the direct reading give the
    same date, and [isoformat] writes the text back. *)
Lemma iso_shape_strptime : forall u,
  iso_shape u = true ->
  strptime_ymd u = iso_date u
  /\ (forall d, iso_date u = Some d -> isoformat d = u).
Proof.
  intros u Hs. apply iso_shape_listed in Hs.
  pose proof all_iso_agree as A. rewrite forallb_forall in A.
  specialize (A _ Hs). unfold strptime_agrees in A.
  destruct (strptime_ymd u) as [d|], (iso_date u) as [d'|]; try discriminate.
  - apply andb_true_iff in A. destruct A as [A1 A2].
    apply text_eqb_eq in A2.
    assert (d = d').
    { unfold date_eqb in A1. destruct d, d'. simpl in A1. bcases. subst.
      reflexivity. }
    subst d'. split; auto. intros d0 E. congruence.
  - split; auto. intros d0 E. discriminate.
Qed.

(** ** The date validator *)


(** The validator on a string is the direct reading. *)
Lemma only_future_direct : forall today s,
  only_future_iso_or_none today (JStr s) = Ok (validate_direct today s).
Proof.
  intros today s. unfold only_future_iso_or_none, validate_direct.
  destruct s as [|c s]; [reflexivity|].
  cbn [truthy negb]. unfold search.
  pose proof (search_ISO_first (c :: s) None 0) as H.
  destruct (search_from ISO_DATE_RE None (c :: s) 0) as [[[b e] cs]|].
  - destruct H as (_ & -> & Hf). rewrite Hf.
    rewrite Nat.sub_0_r in Hf. unfold slice.
    replace (b + 10 - b) with 10 by lia. rewrite Nat.sub_0_r.
    pose proof (first_iso_shape _ _ Hf) as Hs.
    destruct (iso_shape_strptime _ Hs) as [E1 E2]. rewrite E1.
    destruct (iso_date (firstn 10 (skipn b (c :: s)))) as [d|] eqn:Ed; auto.
    rewrite (E2 d eq_refl). reflexivity.
  - rewrite H. reflexivity.
Qed.



(** ** Item normalisation *)

Lemma validate_direct_due_ok : forall today s, due_ok today (validate_direct today s).
Proof.
  intros today s. unfold validate_direct, due_ok.
  destruct (first_iso None s) as [u|] eqn:E; auto.
  destruct (iso_date u) as [d|] eqn:Ed; auto.
  destruct (date_ge d today) eqn:Eg; auto.
  right. exists d. apply first_iso_shape in E.
  destruct (iso_shape_strptime _ E) as [E1 E2].
  rewrite E1. auto.
Qed.

Lemma or_none_nonempty : forall s, or_none s <> [].
Proof. intros [|c s]; simpl; discriminate. Qed.

Lemma readable_text : forall v dflt,
  readable v = true ->
  exists s, py_or v (JStr dflt) = JStr s
            /\ (truthy v = false -> s = dflt).
Proof.
  intros v dflt H. unfold py_or.
  destruct (truthy v) eqn:T.
  - destruct v; simpl in H, T; try discriminate;
      try (rewrite T in H; discriminate).
    eexists; split; [reflexivity | discriminate].
  - exists dflt. auto.
Qed.

Lemma readable_due : forall today v,
  readable v = true ->
  exists d, only_future_iso_or_none today v = Ok d /\ due_ok today d.
Proof.
  intros today v H. destruct (truthy v) eqn:T.
  - destruct v; simpl in H, T; try discriminate;
      try (rewrite T in H; discriminate).
    exists (validate_direct today t). split.
    + apply only_future_direct.
    + apply validate_direct_due_ok.
  - exists NONE. split; [|left; reflexivity].
    unfold only_future_iso_or_none. rewrite T. reflexivity.
Qed.

(** A readable item is normalised without exception into a well-formed
    clean item. *)
Lemma normalize_readable : forall today it,
  readable_item it = true ->
  exists c, normalize_item today it = Ok c /\ well_formed_item today c.
Proof.
  intros today it H. destruct it as [| | | | |?|kv]; try discriminate.
  cbn [readable_item] in H. bcases.
  unfold normalize_item. cbn [py_get bind].
  fold (field kv "action"). fold (field kv "owner"). fold (field kv "due").
  destruct (readable_text (field kv "action") [] H) as (a & Ea & _).
  destruct (readable_text (field kv "owner") NONE H1) as (o & Eo & _).
  destruct (readable_due today (field kv "due") H0) as (d & Ed & Hd).
  rewrite Ea, Eo. cbn [py_strip bind]. rewrite Ed. cbn [bind].
  eexists. split; [reflexivity|].
  exists (or_none (strip a)), (or_none (strip o)), d.
  repeat split; auto using or_none_nonempty.
Qed.

Lemma normalize_all_readable : forall today its,
  forallb readable_item its = true ->
  exists cs, normalize_all today its = Ok cs
    /\ Forall2 (fun it c => normalize_item today it = Ok c) its cs
    /\ Forall (well_formed_item today) cs.
Proof.
  intros today its. induction its as [|it its IH]; intros H.
  - exists []. simpl. auto.
  - cbn [forallb] in H. apply andb_true_iff in H. destruct H as [H1 H2].
    destruct (normalize_readable today it H1) as (c & Ec & Wc).
    destruct (IH H2) as (cs & Ecs & F2 & Fw).
    exists (c :: cs). cbn [normalize_all]. rewrite Ec. cbn [bind].
    rewrite Ecs. cbn [bind]. auto.
Qed.





(** ** The pipeline after recovery *)

Lemma truthy_object : forall kv, kv <> [] -> truthy (JObj kv) = true.
Proof. intros [|p kv] H; [contradiction | reflexivity]. Qed.

Lemma analyze_fallback : forall today raw,
  truthy (extract_json raw) = false ->
  analyze_response today raw = Ok (fallback raw).
Proof.
  intros today raw H. unfold analyze_response. rewrite H. reflexivity.
Qed.

Lemma analyze_object : forall today raw kv,
  extract_json raw = JObj kv -> kv <> [] ->
  analyze_response today raw
  = (cs <- clean_items today (JObj kv) ;;
     Ok (JObj (dict_set kv (str "items") (JArr cs)))).
Proof.
  intros today raw kv E Hkv. unfold analyze_response. rewrite E.
  rewrite (truthy_object Hkv). reflexivity.
Qed.

(** C3, as the code has it: the fallback result is returned whenever the
    recovered value is false (absent, but also an empty object or array);
    a recovered non-empty object whose [items] are absent or a list of
    readable items is returned with every item normalised in order and
    every other field, the summary included, as recovered. *)
Theorem pipeline_after_recovery : forall today raw,
  (truthy (extract_json raw) = false ->
   analyze_response today raw = Ok (fallback raw))
  /\ (forall kv its,
        extract_json raw = JObj kv -> kv <> [] ->
        get_items (JObj kv) = Ok (JArr its) ->
        forallb readable_item its = true ->
        exists cs,
          analyze_response today raw
          = Ok (JObj (dict_set kv (str "items") (JArr cs)))
          /\ Forall2 (fun it c => normalize_item today it = Ok c) its cs
          /\ (forall k, k <> str "items" ->
                dict_get (dict_set kv (str "items") (JArr cs)) k
                = dict_get kv k)).
Proof.
  intros today raw. split; [apply analyze_fallback|].
  intros kv its E Hkv Hi Hr.
  destruct (normalize_all_readable today its Hr) as (cs & Ecs & F2 & _).
  exists cs. split; [|split; auto].
  - rewrite (analyze_object today raw E Hkv).
    unfold clean_items. rewrite Hi. cbn [bind py_iter]. rewrite Ecs.
    reflexivity.
  - intros k Hk. apply dict_get_set_other. congruence.
Qed.


Lemma pipeline_after_recovery_witness :
  (truthy (extract_json (str "no json")) = false
   /\ analyze_response day0 (str "no json") = Ok (fallback (str "no json")))
  /\ exists cs,
       analyze_response day0 one_item_response
       = Ok (JObj (dict_set [(str "summary", JStr (str "ok"));
                             (str "items",
                              JArr [JObj [(str "action", JStr (str "ship"))]])]
                    (str "items") (JArr cs)))
       /\ Forall2 (fun it c => normalize_item day0 it = Ok c)
            [JObj [(str "action", JStr (str "ship"))]] cs.
Proof.
  split.
  - split; [vm_compute; reflexivity|].
    apply (proj1 (pipeline_after_recovery day0 (str "no json"))).
    vm_compute; reflexivity.
  - destruct (proj2 (pipeline_after_recovery day0 one_item_response)
                [(str "summary", JStr (str "ok"));
                 (str "items", JArr [JObj [(str "action", JStr (str "ship"))]])]
                [JObj [(str "action", JStr (str "ship"))]])
      as (cs & E & F & _).
    + vm_compute; reflexivity.
    + discriminate.
    + reflexivity.
    + reflexivity.
    + exists cs. split; assumption.
Defined.

(** C3 fails as stated: on the response [{}] recovery succeeds with the
    empty object, not with absence, and yet the fallback result is
    returned, whose summary is the raw text. *)
Lemma pipeline_counterexample :
  extract_json (str "{}") = JObj []
  /\ JObj [] <> JNull
  /\ analyze_response day0 (str "{}")
     = Ok (JObj [(str "summary", JStr (str "{}")); (str "items", JArr [])]).
Proof.
  split; [vm_compute; reflexivity|]. split; [discriminate|].
  vm_compute; reflexivity.
Qed.

(** ** The inline timecode pattern *)

Lemma decimal_not_colon : forall c, is_decimal c = true -> N.eqb c 58 = false.
Proof.
  intros c H. apply in_range_spec in H. apply N.eqb_neq. lia.
Qed.

Ltac use_decimals :=
  repeat match goal with
  | H : is_decimal ?c = true |- context [is_decimal ?c] => rewrite H
  | H : is_decimal ?c = true |- context [N.eqb ?c 58] =>
      rewrite (decimal_not_colon c H)
  end.

Lemma INLINE_sound : forall l u rt,
  Ms VTT_INLINE_TS l u rt ->
  timecode u = true /\ word_opt l = false /\ word_opt (hd_error rt) = false.
Proof.
  intros l u rt H. unfold VTT_INLINE_TS in H. ms_inv; shorten.
  all: cbn [hd_error word_opt last_opt fold_left app] in *.
  all: split;
    [ cbn [timecode minutes_on fraction forallb]; use_decimals; reflexivity |].
  all: split;
    [ eapply xorb_word_left; eassumption
    | eapply xorb_word_right; eassumption ].
Qed.




Lemma fraction_cases : forall s,
  fraction s = true ->
  s = [] \/ exists a r, s = 46%N :: a :: r /\ is_decimal a = true
            /\ forallb is_decimal r = true /\ length r <= 2.
Proof.
  intros [|p [|a r]] H; auto; unfold fraction in H.
  - cbn in H. rewrite andb_false_r in H. discriminate.
  - right. apply andb_true_iff in H. destruct H as [H H3].
    apply andb_true_iff in H. destruct H as [H H2].
    apply andb_true_iff in H. destruct H as [H0 H1].
    apply N.eqb_eq in H0. subst p.
    cbn [forallb] in H1. apply andb_true_iff in H1. destruct H1 as [Ha Hr].
    apply Nat.leb_le in H3. cbn [Datatypes.length] in H3.
    exists a, r. repeat split; auto. exact (le_S_n _ _ H3).
Qed.

Lemma minutes_cases : forall r0,
  minutes_on r0 = true ->
  exists m1 m2 sec fr, r0 = m1 :: m2 :: sec ++ fr
    /\ is_decimal m1 = true /\ is_decimal m2 = true
    /\ (sec = [] \/ exists s1 s2, sec = [58%N; s1; s2]
          /\ is_decimal s1 = true /\ is_decimal s2 = true)
    /\ fraction fr = true.
Proof.
  intros [|m1 [|m2 r0]] Hm; try discriminate.
  cbn [minutes_on] in Hm. bcases.
  - exists m1, m2, [], r0. repeat split; auto.
  - destruct r0 as [|c [|s1 [|s2 r1]]]; try discriminate. bcases. subst.
    exists m1, m2, [58%N; s1; s2], r1. repeat split; auto.
    right. exists s1, s2. auto.
Qed.

Ltac fraction_split Hfr :=
  apply fraction_cases in Hfr;
  destruct Hfr as [-> | (?a & ?fr' & -> & ?Ha & ?Hfr' & ?Hlen)].



Lemma inline_match_shape : forall pv s n,
  match_len VTT_INLINE_TS pv s = Some n ->
  exists u v, s = u ++ v /\ length u = n /\ timecode u = true
              /\ word_opt pv = false /\ word_opt (hd_error v) = false.
Proof.
  intros pv s n E. apply match_len_sound in E.
  destruct E as (u & v & -> & Hn & HM). apply INLINE_sound in HM.
  exists u, v. tauto.
Qed.

(** ** Shape of a timecode *)



Lemma decimal_tokchar : forall c, is_decimal c = true -> tokchar c = true.
Proof. intros c H. unfold tokchar. rewrite H. reflexivity. Qed.

Lemma forallb_decimal_tokchar : forall r,
  forallb is_decimal r = true -> forallb tokchar r = true.
Proof.
  induction r as [|c r IH]; simpl; auto. intros H.
  apply andb_true_iff in H. destruct H as [H1 H2].
  rewrite (decimal_tokchar _ H1), (IH H2). reflexivity.
Qed.

Lemma timecode_facts : forall u,
  timecode u = true ->
  forallb tokchar u = true
  /\ (exists c u', u = c :: u' /\ is_decimal c = true)
  /\ (exists u' c, u = u' ++ [c] /\ is_decimal c = true).
Proof.
  intros u Ht.
  destruct u as [|h [|x r]]; try discriminate.
  cbn [timecode] in Ht. apply andb_true_iff in Ht. destruct Ht as [Hh Ht].
  assert (Hx : exists r', minutes_on r' = true
             /\ ((x = 58%N /\ r = r')
                 \/ (is_decimal x = true /\ r = 58%N :: r'))).
  { destruct (N.eqb x 58) eqn:Ex.
    - apply N.eqb_eq in Ex. exists r. auto.
    - apply andb_true_iff in Ht. destruct Ht as [Hx Ht].
      destruct r as [|y r']; [discriminate|]. bcases. subst.
      exists r'. auto. }
  clear Ht. destruct Hx as (r' & Hm & Hx).
  destruct (minutes_cases _ Hm)
    as (m1 & m2 & sec & fr & -> & Hm1 & Hm2 & Hsec & Hfr).
  apply fraction_cases in Hfr.
  assert (Hlast : forall pre, exists u' c,
            pre ++ m1 :: m2 :: sec ++ fr = u' ++ [c] /\ is_decimal c = true).
  { intros pre.
    destruct Hfr as [-> | (a & fr' & -> & Ha & Hfr' & Hlen)].
    - rewrite app_nil_r.
      destruct Hsec as [-> | (s1 & s2 & -> & Hs1 & Hs2)].
      + exists (pre ++ [m1]), m2. rewrite <- app_assoc. auto.
      + exists (pre ++ [m1; m2; 58%N; s1]), s2. rewrite <- app_assoc. auto.
    - destruct (exists_last (l := a :: fr')) as (f0 & c & E); [discriminate|].
      exists (pre ++ m1 :: m2 :: sec ++ 46%N :: f0), c. split.
      + rewrite E. rewrite <- !app_assoc. simpl. rewrite <- app_assoc.
        reflexivity.
      + assert (F : forallb is_decimal (a :: fr') = true)
          by (simpl; rewrite Ha, Hfr'; reflexivity).
        rewrite E, forallb_app in F. apply andb_true_iff in F.
        destruct F as [_ F]. simpl in F. rewrite andb_true_r in F. exact F. }
  assert (Hall : forallb tokchar (m1 :: m2 :: sec ++ fr) = true).
  { cbn [forallb]. rewrite (decimal_tokchar _ Hm1), (decimal_tokchar _ Hm2).
    rewrite forallb_app. cbn [andb]. apply andb_true_iff. split.
    - destruct Hsec as [-> | (s1 & s2 & -> & Hs1 & Hs2)]; auto.
      cbn [forallb]. rewrite (decimal_tokchar _ Hs1), (decimal_tokchar _ Hs2).
      reflexivity.
    - destruct Hfr as [-> | (a & fr' & -> & Ha & Hfr' & Hlen)]; auto.
      cbn [forallb]. rewrite (decimal_tokchar _ Ha).
      rewrite (forallb_decimal_tokchar _ Hfr'). reflexivity. }
  destruct Hx as [[-> ->] | [Hx ->]].
  - split; [|split].
    + cbn [forallb]. rewrite (decimal_tokchar _ Hh). exact Hall.
    + exists h. eauto.
    + apply (Hlast [h; 58%N]).
  - split; [|split].
    + cbn [forallb]. rewrite (decimal_tokchar _ Hh), (decimal_tokchar _ Hx).
      exact Hall.
    + exists h. eauto.
    + apply (Hlast [h; x; 58%N]).
Qed.

(** ** Substitution, step by step *)

Lemma last_opt_cons : forall pv c u, last_opt pv (c :: u) = last_opt (Some c) u.
Proof. reflexivity. Qed.

Lemma sub_go_skip : forall r repl s pv n,
  n <= length s ->
  sub_go r repl pv s n
  = sub_go r repl (last_opt pv (firstn n s)) (skipn n s) 0.
Proof.
  induction s as [|c s IH]; intros pv n Hn.
  - simpl in Hn. assert (n = 0) by lia. subst. reflexivity.
  - destruct n as [|n]; [reflexivity|].
    cbn [sub_go firstn skipn]. rewrite last_opt_cons. apply IH.
    simpl in Hn. lia.
Qed.

Lemma inline_no_match_nil : forall pv, match_len VTT_INLINE_TS pv [] = None.
Proof.
  intros pv. destruct (match_len VTT_INLINE_TS pv []) as [n|] eqn:E; auto.
  apply inline_match_shape in E. destruct E as (u & v & E & _ & Ht & _).
  symmetry in E. apply app_eq_nil in E. destruct E as [-> _]. discriminate.
Qed.

Lemma blank_nil : forall pv, blank_from pv [] = [].
Proof.
  intros pv. unfold blank_from. cbn [sub_go].
  rewrite inline_no_match_nil. reflexivity.
Qed.

Lemma blank_keep : forall pv c s,
  match_len VTT_INLINE_TS pv (c :: s) = None ->
  blank_from pv (c :: s) = c :: blank_from (Some c) s.
Proof.
  intros pv c s E. unfold blank_from. cbn [sub_go]. rewrite E. reflexivity.
Qed.

Lemma blank_token : forall pv s n,
  match_len VTT_INLINE_TS pv s = Some n ->
  exists u v, s = u ++ v /\ timecode u = true /\ word_opt pv = false
    /\ word_opt (hd_error v) = false
    /\ blank_from pv s = 32%N :: blank_from (last_opt pv u) v.
Proof.
  intros pv s n E. pose proof E as E0.
  apply inline_match_shape in E.
  destruct E as (u & v & -> & Hn & Ht & Hl & Hr).
  exists u, v. repeat split; auto.
  destruct (timecode_facts _ Ht) as (_ & (c & u' & -> & _) & _).
  unfold blank_from. cbn [app sub_go]. cbn [app] in E0. rewrite E0.
  simpl in Hn. subst n. cbn [app str List.map list_ascii_of_string].
  f_equal. rewrite sub_go_skip by (rewrite length_app; lia).
  destruct (firstn_app_exact u' v eq_refl) as [F1 F2].
  rewrite F1, F2. reflexivity.
Qed.


(** What the substitution does is replace timecodes by spaces. *)
Lemma blank_Replaced : forall n s pv,
  length s <= n -> Replaced pv s (blank_from pv s).
Proof.
  induction n as [|n IH]; intros s pv Hn.
  - destruct s; [|simpl in Hn; lia]. rewrite blank_nil. constructor.
  - destruct s as [|c s]; [rewrite blank_nil; constructor|].
    destruct (match_len VTT_INLINE_TS pv (c :: s)) as [k|] eqn:E.
    + destruct (@blank_token _ _ _ E) as (u & v & Es & Ht & Hl & Hr & Eb).
      rewrite Eb, Es. apply R_tok; auto. apply IH.
      destruct (timecode_facts _ Ht) as (_ & (c0 & u' & -> & _) & _).
      assert (L : length (c :: s) = length ((c0 :: u') ++ v)) by (rewrite Es; reflexivity).
      rewrite length_app in L. simpl in L, Hn. lia.
    + rewrite (@blank_keep _ _ _ E). apply R_keep. apply IH. simpl in Hn. lia.
Qed.






(** ** Whitespace collapsing *)

Lemma rep_greedy_total : forall p s lo pv o,
  rep_greedy p lo None (fun st => Some (off st)) pv s o
  = if Nat.leb lo (run p s) then Some (o + run p s) else None.
Proof.
  induction s as [|c s IH]; intros lo pv o; cbn [rep_greedy run].
  - destruct lo; simpl; [rewrite Nat.add_0_r|]; reflexivity.
  - destruct (p c) eqn:Ep; cbn [andb hi_ok option_map].
    + rewrite IH. destruct lo as [|lo]; cbn [pred Nat.leb].
      * rewrite Nat.add_succ_r. reflexivity.
      * destruct (Nat.leb lo (run p s)); [|reflexivity].
        rewrite Nat.add_succ_r. reflexivity.
    + destruct lo; simpl; [rewrite Nat.add_0_r|]; reflexivity.
Qed.

(** The whitespace pattern matches the whole run at a position, and only
    a run of two or more. *)
Lemma ws_run_match : forall pv s,
  match_len WS_RUN pv s
  = if Nat.leb 2 (run is_space s) then Some (run is_space s) else None.
Proof.
  intros pv s. unfold match_len, WS_RUN, atleast. cbn [mt prev rest off].
  apply (rep_greedy_total is_space s 2 pv 0).
Qed.

Lemma squeeze_sub : forall s pv,
  sub_go WS_RUN (str " ") pv s 0 = squeeze false s
  /\ sub_go WS_RUN (str " ") pv s (run is_space s) = squeeze true s.
Proof.
  induction s as [|c s IH]; intros pv.
  - cbn [sub_go run squeeze]. rewrite ws_run_match. split; reflexivity.
  - assert (P1 : sub_go WS_RUN (str " ") pv (c :: s) 0 = squeeze false (c :: s)).
    { cbn [sub_go]. rewrite ws_run_match. cbn [run squeeze].
      destruct (is_space c) eqn:Ec.
      - destruct s as [|d s].
        + reflexivity.
        + cbn [run]. destruct (is_space d) eqn:Ed.
          * cbn [Nat.leb]. cbn [app str List.map list_ascii_of_string].
            f_equal. pose proof (proj2 (IH (Some c))) as H.
            cbn [run] in H. rewrite Ed in H. exact H.
          * cbn [Nat.leb]. f_equal. apply (proj1 (IH (Some c))).
      - cbn [Nat.leb]. f_equal. apply (proj1 (IH (Some c))). }
    split; [exact P1|].
    cbn [run]. destruct (is_space c) eqn:Ec.
    + cbn [sub_go squeeze]. rewrite Ec. apply (proj2 (IH (Some c))).
    + rewrite P1. cbn [squeeze]. rewrite Ec. reflexivity.
Qed.

(** [re.sub(r"\s{2,}", " ", s)] is the direct collapsing. *)
Lemma collapse_squeeze : forall s,
  re_sub WS_RUN (str " ") s = squeeze false s.
Proof. intros s. apply (proj1 (squeeze_sub s None)). Qed.

(** ** Words *)








Lemma words_nil : words [] = [].
Proof. reflexivity. Qed.



Lemma rstrip_snoc : forall s c,
  rstrip (s ++ [c]) = if is_space c then rstrip s else s ++ [c].
Proof.
  intros s c. unfold rstrip. rewrite rev_app_distr. cbn [rev app lstrip].
  destruct (is_space c); [reflexivity|].
  cbn [rev]. rewrite rev_involutive. reflexivity.
Qed.






Lemma join_cons2 : forall sep p q ps,
  join sep (p :: q :: ps) = p ++ sep ++ join sep (q :: ps).
Proof. reflexivity. Qed.


(** ** Lines *)

Lemma splitlines_char : forall c t,
  is_linebreak c = false ->
  splitlines (c :: t)
  = match splitlines t with
    | [] => [[c]]
    | l :: ls => (c :: l) :: ls
    end.
Proof. intros c t H. simpl. rewrite H. reflexivity. Qed.

(** The first line of a text, the boundary after it and the rest. *)
Lemma splitlines_first : forall t,
  t <> [] ->
  exists l br rest,
    t = l ++ br ++ rest
    /\ splitlines t = l :: splitlines rest
    /\ forallb (fun c => negb (is_linebreak c)) l = true
    /\ forallb is_linebreak br = true
    /\ (br = [] -> rest = [])
    /\ length rest < length t.
Proof.
  induction t as [|c t IH]; intros Hne; [contradiction|].
  destruct (is_linebreak c) eqn:Ec.
  - destruct (N.eqb c 13) eqn:E13.
    + destruct t as [|d t].
      * exists [], [c], []. cbn [splitlines]. rewrite Ec, E13.
        cbn [forallb]. rewrite Ec. repeat split; auto; try discriminate; simpl; lia.
      * destruct (N.eqb d 10) eqn:E10.
        -- exists [], [c; d], t. cbn [splitlines]. rewrite Ec, E13, E10.
           cbn [forallb]. rewrite Ec. apply N.eqb_eq in E10. subst d.
           repeat split; auto; try discriminate; simpl; lia.
        -- exists [], [c], (d :: t). cbn [splitlines]. rewrite Ec, E13, E10.
           cbn [forallb]. rewrite Ec. repeat split; auto; try discriminate; simpl; lia.
    + exists [], [c], t. cbn [splitlines]. rewrite Ec, E13.
      cbn [forallb]. rewrite Ec. repeat split; auto; try discriminate; simpl; lia.
  - destruct t as [|d t].
    + exists [c], [], []. cbn [splitlines]. rewrite Ec.
      cbn [forallb negb]. rewrite Ec. repeat split; auto; simpl; lia.
    + destruct IH as (l & br & rest & Et & Es & Hl & Hb & Hr & Hlen);
        [discriminate|].
      exists (c :: l), br, rest. rewrite (@splitlines_char c (d :: t) Ec), Es.
      cbn [forallb]. rewrite Ec, Hl. cbn [app]. rewrite <- Et.
      repeat split; auto; simpl in *; lia.
Qed.






(** ** Trimming *)

Lemma lstrip_split : forall s,
  exists ws, s = ws ++ lstrip s /\ forallb is_space ws = true.
Proof.
  induction s as [|c s IH].
  - exists []. auto.
  - cbn [lstrip]. destruct (is_space c) eqn:E.
    + destruct IH as (ws & Es & Hw). exists (c :: ws). cbn [app forallb].
      rewrite E, Hw. split; [f_equal; exact Es | reflexivity].
    + exists []. auto.
Qed.

Lemma rstrip_split : forall s,
  exists ws, s = rstrip s ++ ws /\ forallb is_space ws = true.
Proof.
  induction s as [|c s IH] using rev_ind.
  - exists []. auto.
  - rewrite rstrip_snoc. destruct (is_space c) eqn:E.
    + destruct IH as (ws & Es & Hw). exists (ws ++ [c]). split.
      * rewrite app_assoc, <- Es. reflexivity.
      * rewrite forallb_app, Hw. cbn. rewrite E. reflexivity.
    + exists []. rewrite app_nil_r. auto.
Qed.

Lemma lstrip_head : forall s c r, lstrip s = c :: r -> is_space c = false.
Proof.
  induction s as [|x s IH]; intros c r H; [discriminate|].
  cbn [lstrip] in H. destruct (is_space x) eqn:E.
  - eapply IH; eauto.
  - inversion H; subst. exact E.
Qed.

Lemma lstrip_fixed : forall c s, is_space c = false -> lstrip (c :: s) = c :: s.
Proof. intros c s H. cbn [lstrip]. rewrite H. reflexivity. Qed.

Lemma lstrip_idem : forall s, lstrip (lstrip s) = lstrip s.
Proof.
  intros s. destruct (lstrip s) as [|c r] eqn:E; [reflexivity|].
  apply (@lstrip_fixed c r). eapply lstrip_head; eauto.
Qed.

Lemma rstrip_idem : forall s, rstrip (rstrip s) = rstrip s.
Proof.
  intros s. unfold rstrip. rewrite rev_involutive, lstrip_idem. reflexivity.
Qed.





Lemma strip_rstrip_fixed : forall s, rstrip (strip s) = strip s.
Proof. intros s. unfold strip. apply rstrip_idem. Qed.

Lemma strip_infix : forall s,
  exists a b, s = a ++ strip s ++ b
    /\ forallb is_space a = true /\ forallb is_space b = true.
Proof.
  intros s. destruct (lstrip_split s) as (a & Ea & Ha).
  destruct (rstrip_split (lstrip s)) as (b & Eb & Hb).
  exists a, b. unfold strip. rewrite <- Eb. auto.
Qed.


(** ** More on collapsing *)









(** ** Timecodes and whitespace *)























(** ** Timing lines *)

Lemma lstrip_spaces_app : forall ws r,
  forallb is_space ws = true -> lstrip (ws ++ r) = lstrip r.
Proof.
  induction ws as [|c ws IH]; intros r H; [reflexivity|].
  cbn [forallb] in H. apply andb_true_iff in H. destruct H as [Hc Hw].
  cbn [app lstrip]. rewrite Hc. apply IH. exact Hw.
Qed.

(** A clock is twelve code points long. *)
Lemma clock_at_split : forall s,
  clock_at s = true ->
  exists a b d e f g h i j v,
    s = [a; b; 58; d; e; 58; f; g; 46; h; i; j]%N ++ v
    /\ is_decimal a = true /\ is_decimal b = true /\ is_decimal d = true
    /\ is_decimal e = true /\ is_decimal f = true /\ is_decimal g = true
    /\ is_decimal h = true /\ is_decimal i = true /\ is_decimal j = true.
Proof.
  intros s H.
  destruct s as [|a [|b [|c1 [|d [|e [|c2 [|f [|g [|p [|h [|i [|j v]]]]]]]]]]]];
    try discriminate.
  cbn [clock_at] in H. bcases. subst.
  exists a, b, d, e, f, g, h, i, j, v. cbn [app]. repeat split; assumption.
Qed.

Lemma clock_at_build : forall a b d e f g h i j v,
  is_decimal a = true -> is_decimal b = true -> is_decimal d = true ->
  is_decimal e = true -> is_decimal f = true -> is_decimal g = true ->
  is_decimal h = true -> is_decimal i = true -> is_decimal j = true ->
  clock_at ([a; b; 58; d; e; 58; f; g; 46; h; i; j]%N ++ v) = true.
Proof.
  intros. cbn [app clock_at]. use_decimals. reflexivity.
Qed.

Lemma clock_sound : forall l u rt v,
  Ms clock_ms l u rt -> length u = 12 /\ clock_at (u ++ v) = true.
Proof.
  intros l u rt v H. unfold clock_ms in H. ms_inv; shorten.
  split; [reflexivity|]. apply clock_at_build; assumption.
Qed.

Lemma clock_complete : forall a b d e f g h i j l rt,
  is_decimal a = true -> is_decimal b = true -> is_decimal d = true ->
  is_decimal e = true -> is_decimal f = true -> is_decimal g = true ->
  is_decimal h = true -> is_decimal i = true -> is_decimal j = true ->
  Ms clock_ms l [a; b; 58; d; e; 58; f; g; 46; h; i; j]%N rt.
Proof.
  intros. unfold clock_ms. re_unfold. ms_build.
Qed.

Lemma clock_lstrip : forall s, clock_at s = true -> lstrip s = s.
Proof.
  intros s H.
  destruct (clock_at_split _ H) as (a & b & d & e & f & g & h & i & j & v & -> & Ha & _).
  cbn [app]. apply lstrip_fixed. class_false.
  rewrite (space_not_decimal _ E) in Ha. discriminate.
Qed.

Lemma clock_at_app : forall c v, clock_at c = true -> clock_at (c ++ v) = true.
Proof.
  intros c v H.
  destruct (clock_at_split _ H)
    as (a & b & d & e & f & g & h & i & j & v' & -> & Ha).
  rewrite <- app_assoc. apply clock_at_build; tauto.
Qed.

Lemma lstrip_arrow : forall r, lstrip (str "-->" ++ r) = str "-->" ++ r.
Proof. reflexivity. Qed.

Lemma skipn_arrow : forall r, skipn 3 (str "-->" ++ r) = r.
Proof. reflexivity. Qed.

(** What a timing line is made of. *)
Lemma timing_line_shape : forall s,
  timing_line s = true <->
  exists c1 ws1 ws2 c2 rt,
    s = c1 ++ ws1 ++ str "-->" ++ ws2 ++ c2 ++ rt
    /\ length c1 = 12 /\ clock_at c1 = true
    /\ forallb is_space ws1 = true /\ forallb is_space ws2 = true
    /\ length c2 = 12 /\ clock_at c2 = true.
Proof.
  intros s. split.
  - intros H. unfold timing_line in H.
    apply andb_true_iff in H. destruct H as [H1 H2].
    apply andb_true_iff in H2. destruct H2 as [H2 H3].
    destruct (clock_at_split _ H1)
      as (a & b & d & e & f & g & h & i & j & v & -> & Ha).
    cbn [app skipn] in H2, H3.
    destruct (lstrip_split v) as (ws1 & Ev & Hw1).
    destruct (startswith_split _ _ H2) as (r & Er).
    rewrite Er in H3.
    change (skipn 3 (str "-->" ++ r)) with r in H3.
    destruct (lstrip_split r) as (ws2 & Err & Hw2).
    destruct (clock_at_split _ H3)
      as (a' & b' & d' & e' & f' & g' & h' & i' & j' & rt & E2 & Ha').
    exists [a; b; 58; d; e; 58; f; g; 46; h; i; j]%N, ws1, ws2,
      [a'; b'; 58; d'; e'; 58; f'; g'; 46; h'; i'; j']%N, rt.
    split; [|split; [reflexivity|]].
    { f_equal. rewrite Ev at 1. f_equal. rewrite Er. f_equal.
      rewrite Err at 1. f_equal. exact E2. }
    split.
    { rewrite <- (app_nil_r [a; b; 58; d; e; 58; f; g; 46; h; i; j]%N).
      apply clock_at_build; tauto. }
    repeat split; auto.
    rewrite <- (app_nil_r [a'; b'; 58; d'; e'; 58; f'; g'; 46; h'; i'; j']%N).
    apply clock_at_build; tauto.
  - intros (c1 & ws1 & ws2 & c2 & rt & -> & L1 & H1 & Hw1 & Hw2 & L2 & H2).
    unfold timing_line. apply andb_true_iff. split.
    { apply clock_at_app. exact H1. }
    rewrite (proj2 (firstn_app_exact c1 _ L1)).
    rewrite (@lstrip_spaces_app ws1 _ Hw1), lstrip_arrow, startswith_app.
    rewrite skipn_arrow, (@lstrip_spaces_app ws2 _ Hw2).
    pose proof (@clock_at_app c2 rt H2) as Hc.
    rewrite (clock_lstrip _ Hc). exact Hc.
Qed.

Lemma TS_sound : forall l u rt,
  Ms VTT_TS_LINE l u rt -> l = None /\ timing_line (u ++ rt) = true.
Proof.
  intros l u rt H. unfold VTT_TS_LINE in H. ms_inv.
  split; [reflexivity|]. apply timing_line_shape.
  cbn [app last_opt fold_left] in *.
  match goal with
  | H1 : Ms clock_ms None ?c1 _, H2 : Ms clock_ms _ ?c2 _,
    W1 : forallb is_space ?w1 = true, W2 : forallb is_space ?w2 = true
    |- context [?c1 ++ ?w1 ++ _ :: _ :: _ :: ?w2 ++ ?c2] =>
      exists c1, w1, w2, c2, rt;
      destruct (@clock_sound _ _ _ [] H1) as [L1 C1];
      destruct (@clock_sound _ _ _ [] H2) as [L2 C2];
      rewrite app_nil_r in C1, C2
  end.
  repeat split; auto.
  repeat (rewrite <- ?app_assoc; cbn [app]). reflexivity.
Qed.

Lemma TS_complete : forall s,
  timing_line s = true -> exists u rt, s = u ++ rt /\ Ms VTT_TS_LINE None u rt.
Proof.
  intros s H. apply timing_line_shape in H.
  destruct H as (c1 & ws1 & ws2 & c2 & rt & -> & L1 & H1 & Hw1 & Hw2 & L2 & H2).
  exists (c1 ++ ws1 ++ str "-->" ++ ws2 ++ c2), rt. split.
  { repeat rewrite <- app_assoc. reflexivity. }
  assert (K : forall c l r, length c = 12 -> clock_at c = true -> Ms clock_ms l c r).
  { intros c l r L Hc.
    destruct (clock_at_split _ Hc)
      as (a & b & d & e & f & g & h & i & j & v & E & Ha).
    assert (v = []) as ->.
    { rewrite E, length_app in L. simpl in L.
      destruct v; [reflexivity | simpl in L; lia]. }
    rewrite app_nil_r in E. subst c. apply clock_complete; tauto. }
  unfold VTT_TS_LINE, star, lit, chr.
  cbn [fold_right list_ascii_of_string].
  exists [], (c1 ++ ws1 ++ str "-->" ++ ws2 ++ c2).
  split; [reflexivity|]. split; [split; reflexivity|].
  exists c1, (ws1 ++ str "-->" ++ ws2 ++ c2).
  split; [reflexivity|]. split; [apply K; assumption|].
  exists ws1, (str "-->" ++ ws2 ++ c2).
  split; [reflexivity|]. split; [cbn; repeat split; auto; lia|].
  exists (str "-->"), (ws2 ++ c2).
  split; [reflexivity|]. split.
  { exists [45%N], [45%N; 62%N]. split; [reflexivity|].
    split; [exists 45%N; split; reflexivity|].
    exists [45%N], [62%N]. split; [reflexivity|].
    split; [exists 45%N; split; reflexivity|].
    exists [62%N], []. split; [reflexivity|].
    split; [exists 62%N; split; reflexivity|]. reflexivity. }
  exists ws2, c2.
  split; [reflexivity|]. split; [cbn; repeat split; auto; lia|].
  apply K; assumption.
Qed.

(** The timing pattern matches at the start of a line exactly when the
    line is a timing line. *)
Lemma ts_match_iff : forall s,
  re_match VTT_TS_LINE s <> None <-> timing_line s = true.
Proof.
  intros s. split.
  - intros H. unfold re_match in H.
    destruct (match_here VTT_TS_LINE (mkp None s 0)) as [[e cs]|] eqn:E;
      [|congruence].
    apply match_here_sound in E. destruct E as (u & v & -> & _ & HM).
    apply TS_sound in HM. tauto.
  - intros H. apply TS_complete in H. destruct H as (u & rt & -> & HM).
    unfold re_match. apply match_here_complete. exact HM.
Qed.



(** ** Single words and first words *)




Lemma solid_head : forall c a, solid (c :: a) = true -> is_space c = false.
Proof.
  intros c a H. cbn [solid forallb] in H. apply andb_true_iff in H.
  destruct H as [H _]. apply negb_true_iff in H. exact H.
Qed.




(** ** Header lines *)









(** ** Kept lines *)




Lemma sub_inline_blank : forall l,
  re_sub VTT_INLINE_TS (str " ") l = blank_from None l.
Proof. reflexivity. Qed.

(** The line [keep_line] keeps, in terms of the direct readings. *)
Lemma keep_line_direct : forall l,
  keep_line l
  = if timing_line l then None
    else let k := strip (blank_from None l) in
         if nonempty k && negb (isdigit k)
            && negb (existsb (startswith (str_lower k)) vtt_headers)
         then Some k else None.
Proof.
  intros l. unfold keep_line. rewrite sub_inline_blank.
  destruct (timing_line l) eqn:Et.
  - apply ts_match_iff in Et.
    destruct (re_match VTT_TS_LINE l); [reflexivity | congruence].
  - destruct (re_match VTT_TS_LINE l) eqn:Em.
    + assert (Hm : re_match VTT_TS_LINE l <> None) by congruence.
      apply ts_match_iff in Hm. congruence.
    + cbv zeta. destruct (strip (blank_from None l)) as [|c k]; [reflexivity|].
      cbn [nonempty andb].
      destruct (isdigit (c :: k)); [reflexivity|]. cbn [negb andb].
      destruct (existsb (startswith (str_lower (c :: k))) vtt_headers);
        reflexivity.
Qed.




(** ** The filter as a whole *)


Lemma parse_direct : forall t,
  parse_vtt t
  = strip (squeeze false (join (str " ") (kept_lines (splitlines t)))).
Proof. intros t. unfold parse_vtt. rewrite collapse_squeeze. reflexivity. Qed.







(** ** Numeric lines and header lines *)



Lemma class_free : forall (p : cp -> bool) (x : cp) (s : text),
  p x = false -> forallb p s = true -> existsb (N.eqb x) s = false.
Proof.
  intros p x s Hx. induction s as [|c s IH]; intros H; [reflexivity|].
  cbn [forallb] in H. apply andb_true_iff in H. destruct H as [Hc Hs].
  cbn [existsb]. rewrite (IH Hs), orb_false_r. apply N.eqb_neq.
  intros ->. congruence.
Qed.








(** ** Plain text *)


(** ** The two claims about the caption filter *)





(** * Further properties of the program *)

(** ** What the caption filter returns *)



(** ** Ingesting twice *)


(** ** The date validator on its own results *)




(** ** What the analysis returns *)







(** ** Rows of the results table *)





(** ** Options of the selection box *)

Lemma fold_digits_snoc : forall s d acc,
  fold_left (fun a c => (a * 10 + (c - 48))%N) (s ++ [d]) acc
  = (fold_left (fun a c => (a * 10 + (c - 48))%N) s acc * 10 + (d - 48))%N.
Proof. intros. rewrite fold_left_app. reflexivity. Qed.

Lemma digit_code : forall n, is_decimal (48 + n mod 10)%N = true.
Proof.
  intros n. apply in_range_spec.
  assert (H : (n mod 10 < 10)%N) by (apply N.mod_upper_bound; discriminate).
  generalize dependent (n mod 10)%N. intros m H. lia.
Qed.

Lemma dec_go_digits : forall fuel n, forallb is_decimal (dec_go fuel n) = true.
Proof.
  induction fuel as [|f IH]; intros n; [reflexivity|].
  cbn [dec_go]. rewrite forallb_app. cbn [forallb].
  rewrite digit_code, andb_true_r.
  destruct (N.ltb n 10); [reflexivity | apply IH].
Qed.

Lemma dec_go_value : forall fuel n,
  (n < 2 ^ N.of_nat fuel)%N ->
  fold_left (fun a c => (a * 10 + (c - 48))%N) (dec_go fuel n) 0%N = n.
Proof.
  induction fuel as [|f IH]; intros n H.
  - cbn in H. assert (n = 0%N) by lia. subst. reflexivity.
  - cbn [dec_go]. rewrite fold_digits_snoc.
    replace (48 + n mod 10 - 48)%N with (n mod 10)%N
      by (rewrite N.add_comm, N.add_sub; reflexivity).
    destruct (N.ltb n 10) eqn:E.
    + apply N.ltb_lt in E. cbn [fold_left]. rewrite N.mod_small by exact E.
      reflexivity.
    + apply N.ltb_ge in E. rewrite IH.
      * rewrite N.mul_comm. symmetry. apply N.div_mod. discriminate.
      * rewrite Nat2N.inj_succ, N.pow_succ_r' in H.
        apply N.Div0.div_lt_upper_bound.
        generalize dependent (2 ^ N.of_nat f)%N. intros p _ H. lia.
Qed.

Lemma dec_go_length : forall fuel n, length (dec_go fuel n) <= fuel.
Proof.
  induction fuel as [|f IH]; intros n; [apply le_n|].
  cbn [dec_go]. rewrite length_app. cbn [Datatypes.length].
  destruct (N.ltb n 10); [simpl; lia|]. specialize (IH (n / 10)%N). lia.
Qed.

Lemma dec_go_nonnil : forall fuel n, dec_go (S fuel) n <> [].
Proof.
  intros fuel n H. cbn [dec_go] in H. apply app_eq_nil in H.
  destruct H as [_ H]. discriminate.
Qed.

Lemma decimal_fuel : forall n, (n < 2 ^ N.of_nat (S (N.to_nat (N.log2 n))))%N.
Proof.
  intros n. rewrite Nat2N.inj_succ, N2Nat.id.
  destruct (N.eq_dec n 0) as [-> | Hn]; [reflexivity|].
  apply N.log2_spec. lia.
Qed.

Lemma decimal_value : forall n,
  fold_left (fun a c => (a * 10 + (c - 48))%N) (decimal n) 0%N = n.
Proof. intros n. apply dec_go_value. apply decimal_fuel. Qed.

Lemma decimal_digits : forall n, forallb is_decimal (decimal n) = true.
Proof. intros n. apply dec_go_digits. Qed.

Lemma decimal_length : forall n,
  (n < 2 ^ 63)%N -> 1 <= length (decimal n) <= 63.
Proof.
  intros n H. unfold decimal. split.
  - pose proof (@dec_go_nonnil (N.to_nat (N.log2 n)) n) as Hn.
    destruct (dec_go (S (N.to_nat (N.log2 n))) n); [congruence | simpl; lia].
  - pose proof (dec_go_length (S (N.to_nat (N.log2 n))) n) as L.
    assert (N.log2 n < 63)%N.
    { destruct (N.eq_dec n 0) as [-> | Hn]; [reflexivity|].
      apply N.log2_lt_pow2; lia. }
    lia.
Qed.

(** On digits only, [int_digits] is the positional value. *)
Lemma int_digits_value : forall s acc n b,
  forallb is_decimal s = true ->
  int_digits acc n b s
  = match s with
    | [] => if b then Some (acc, n) else None
    | _ => Some (fold_left (fun a c => (a * 10 + (c - 48))%N) s acc,
                 n + length s)
    end.
Proof.
  induction s as [|c s IH]; intros acc n b H; [reflexivity|].
  cbn [forallb] in H. apply andb_true_iff in H. destruct H as [Hc Hs].
  cbn [int_digits]. rewrite Hc, (@IH _ _ true Hs).
  destruct s as [|d s].
  - cbn [fold_left Datatypes.length]. rewrite Nat.add_1_r. reflexivity.
  - cbn [fold_left Datatypes.length]. f_equal. f_equal.
    rewrite !Nat.add_succ_r. reflexivity.
Qed.

Lemma decimal_not_int_space : forall c, is_decimal c = true -> int_space c = false.
Proof.
  intros c H. class_false. unfold int_space in E. class_unfold. bool_to_prop.
  repeat match goal with
  | H : _ \/ _ |- _ => destruct H; bool_to_prop; try lia
  end.
Qed.

Lemma drop_while_digits : forall s,
  forallb is_decimal s = true -> drop_while int_space s = s.
Proof.
  intros [|c s] H; [reflexivity|]. cbn [forallb] in H.
  apply andb_true_iff in H. destruct H as [Hc _].
  cbn [drop_while]. rewrite (decimal_not_int_space _ Hc). reflexivity.
Qed.

Lemma forallb_rev_text : forall (p : cp -> bool) s,
  forallb p s = true -> forallb p (rev s) = true.
Proof.
  intros p s H. apply forallb_forall. intros x Hx.
  rewrite forallb_forall in H. apply H. apply in_rev. exact Hx.
Qed.

Lemma int_trim_digits : forall s, forallb is_decimal s = true -> int_trim s = s.
Proof.
  intros s H. unfold int_trim. rewrite (@drop_while_digits s H).
  rewrite (@drop_while_digits (rev s) (@forallb_rev_text is_decimal s H)).
  apply rev_involutive.
Qed.

(** [int] reads back what [str] writes. *)
Lemma py_int_decimal : forall n,
  (n < 2 ^ 63)%N -> py_int (decimal n) = Some (Z.of_N n).
Proof.
  intros n H. unfold py_int.
  rewrite (@int_trim_digits (decimal n) (decimal_digits n)).
  pose proof (decimal_digits n) as Hd. pose proof (decimal_value n) as Hv.
  pose proof (decimal_length H) as [L1 L2].
  destruct (decimal n) as [|c s] eqn:E; [simpl in L1; lia|].
  assert (Hc : is_decimal c = true).
  { cbn [forallb] in Hd. apply andb_true_iff in Hd. tauto. }
  assert (N.eqb c 45 = false) as ->.
  { apply in_range_spec in Hc. apply N.eqb_neq. lia. }
  assert (N.eqb c 43 = false) as ->.
  { apply in_range_spec in Hc. apply N.eqb_neq. lia. }
  cbn [snd fst]. rewrite (@int_digits_value (c :: s) 0%N 0 false Hd), Hv.
  cbn [Nat.add].
  assert (Nat.leb (length (c :: s)) 4300 = true) as ->.
  { apply Nat.leb_le. lia. }
  reflexivity.
Qed.

Lemma split_on_head : forall c a b,
  existsb (N.eqb c) a = false -> hd [] (split_on c (a ++ c :: b)) = a.
Proof.
  intros c a b. induction a as [|x a IH]; intros H.
  - cbn [app split_on]. rewrite N.eqb_refl. reflexivity.
  - cbn [existsb] in H. apply orb_false_iff in H. destruct H as [Hx Ha].
    cbn [app split_on]. rewrite N.eqb_sym, Hx.
    specialize (IH Ha).
    destruct (split_on c (a ++ c :: b)) as [|l ls]; cbn [hd] in *;
      subst; reflexivity.
Qed.

Lemma digits_no_colon : forall s : text,
  forallb is_decimal s = true -> existsb (N.eqb 58) s = false.
Proof.
  intros s H. apply (@class_free is_decimal 58%N s eq_refl H).
Qed.

Lemma label_index : forall i r,
  (i < 2 ^ 63)%N ->
  py_int (hd [] (split_on 58%N (label i r))) = Some (Z.of_N i).
Proof.
  intros i r H. unfold label.
  change (str ": " ++ t_action r) with (58%N :: 32%N :: t_action r).
  rewrite (@split_on_head 58%N (decimal i) _ (@digits_no_colon _ (decimal_digits i))).
  apply py_int_decimal. exact H.
Qed.

Lemma labels_from_nth : forall t i k r,
  nth_error t k = Some r ->
  nth_error (labels_from i t) k = Some (label (i + N.of_nat k) r).
Proof.
  induction t as [|x t IH]; intros i k r H; [destruct k; discriminate|].
  destruct k as [|k].
  - inversion H. subst. cbn [labels_from nth_error].
    rewrite N.add_0_r. reflexivity.
  - cbn [labels_from nth_error] in *. rewrite (IH (i + 1)%N k r H).
    f_equal. f_equal. rewrite Nat2N.inj_succ, <- N.add_1_l.
    apply eq_sym, N.add_assoc.
Qed.

Lemma iloc_nat : forall t k, iloc t (Z.of_nat k) = nth_error t k.
Proof.
  intros t k. unfold iloc.
  assert (Z.leb 0 (Z.of_nat k) = true) as -> by (apply Z.leb_le; apply Nat2Z.is_nonneg).
  rewrite Nat2Z.id. reflexivity.
Qed.

Lemma of_nat_le : forall a b, a <= b -> (N.of_nat a <= N.of_nat b)%N.
Proof. intros a b H. lia. Qed.

Lemma nth_error_bound : forall (t : list trow) k r,
  nth_error t k = Some r -> k < length t.
Proof.
  intros t k r H. apply nth_error_Some. rewrite H. discriminate.
Qed.

(** X6: the option shown for a row leads the push loop back to that row:
    the text before its first colon is read as the index of the row,
    whatever the action holds. *)
Theorem option_names_row : forall t k r,
  (N.of_nat (length t) < 2 ^ 63)%N ->
  nth_error t k = Some r ->
  exists opt,
    nth_error (options t) k = Some opt
    /\ py_int (hd [] (split_on 58%N opt)) = Some (Z.of_nat k)
    /\ iloc t (Z.of_nat k) = Some r.
Proof.
  intros t k r Hb H. exists (label (N.of_nat k) r).
  split; [apply (@labels_from_nth t 0%N k r H)|].
  split; [|rewrite iloc_nat; exact H].
  rewrite label_index; [rewrite nat_N_Z; reflexivity|].
  pose proof (@nth_error_bound t k r H) as L.
  apply N.le_lt_trans with (m := N.of_nat (length t)); [|exact Hb].
  apply of_nat_le. apply Nat.lt_le_incl. exact L.
Qed.

Lemma option_names_row_witness :
  exists opt,
    nth_error (options sample_table) 0 = Some opt
    /\ py_int (hd [] (split_on 58%N opt)) = Some 0%Z
    /\ iloc sample_table 0%Z = nth_error sample_table 0.
Proof.
  destruct (@option_names_row sample_table 0
              (mktrow (str "a.vtt") (str "ok") (str "ship: 1:1 with Bob")
                 (str "Ann") (str "2024-06-20")) eq_refl eq_refl)
    as (opt & H1 & H2 & H3).
  exists opt. split; [exact H1|]. split; [exact H2 | exact H3].
Defined.

(** ** The push loop *)




(** ** The task of a row *)

Lemma task_notes_cons : forall title r, exists c n, task_notes title r = c :: n.
Proof.
  intros [|c title] r; unfold task_notes; cbn [app nl]; eauto.
Qed.

Lemma task_due_none : forall r,
  text_eqb (task_due r) NONE = true <-> t_due r = [] \/ t_due r = NONE.
Proof.
  intros r. unfold task_due. destruct (t_due r) as [|c d].
  - split; [auto | reflexivity].
  - rewrite text_eqb_eq. split; [auto | intros [H | H]; [discriminate | exact H]].
Qed.

Lemma task_due_some : forall r,
  text_eqb (task_due r) NONE = false -> task_due r = t_due r.
Proof.
  intros r. unfold task_due. destruct (t_due r); [discriminate | reflexivity].
Qed.

(** X8: a row without action gives no task; a row with an action gives
    one task whose title is the action cut to at most 255 code points,
    whose notes, never left out, open with the meeting title, and which
    has a due time, the due value of the row followed by 09:00 UTC,
    exactly when that value is neither empty nor the placeholder. *)
Theorem task_of_row : forall title r,
  (t_action r = [] -> row_task title r = None)
  /\ (t_action r <> [] ->
      exists b,
        row_task title r = Some b
        /\ dict_get b (str "title") = Some (JStr (firstn 255 (t_action r)))
        /\ length (firstn 255 (t_action r)) <= 255
        /\ dict_get b (str "notes") = Some (JStr (task_notes title r))
        /\ startswith (task_notes title r) title = true
        /\ (t_due r = [] \/ t_due r = NONE -> dict_get b (str "due") = None)
        /\ (t_due r <> [] -> t_due r <> NONE ->
            dict_get b (str "due")
            = Some (JStr (t_due r ++ str "T09:00:00.000Z")))).
Proof.
  intros title r. unfold row_task. split.
  - intros ->. reflexivity.
  - intros Ha. destruct (t_action r) as [|c a] eqn:Ea; [congruence|].
    eexists. split; [reflexivity|].
    destruct (task_notes_cons title r) as (n0 & n & En).
    unfold task_body. rewrite En.
    destruct (text_eqb (task_due r) NONE) eqn:Ed; cbn [negb].
    + split; [reflexivity|]. split; [apply firstn_le_length|].
      split; [reflexivity|]. rewrite <- En.
      split; [apply startswith_app|].
      split; [reflexivity|]. intros H1 H2. apply task_due_none in Ed. tauto.
    + split; [reflexivity|]. split; [apply firstn_le_length|].
      split; [reflexivity|]. rewrite <- En.
      split; [apply startswith_app|].
      split.
      * intros H. apply task_due_none in H. congruence.
      * intros _ _. rewrite (@task_due_some r Ed). reflexivity.
Qed.

Lemma task_of_row_witness :
  exists b,
    row_task (str "Sync")
      (mktrow (str "a.vtt") (str "ok") (str "ship") (str "Ann") (str "2024-06-20"))
    = Some b
    /\ dict_get b (str "due") = Some (JStr (str "2024-06-20T09:00:00.000Z")).
Proof.
  destruct (proj2 (task_of_row (str "Sync")
      (mktrow (str "a.vtt") (str "ok") (str "ship") (str "Ann") (str "2024-06-20"))))
    as (b & H1 & _ & _ & _ & _ & _ & H2); [discriminate|].
  exists b. split; [exact H1|]. apply H2; discriminate.
Defined.

(** ** The name of the CSV download *)

Lemma replace_cp_free : forall a b s,
  N.eqb b a = false -> existsb (N.eqb a) (replace_cp a b s) = false.
Proof.
  intros a b s H. induction s as [|c s IH]; [reflexivity|].
  cbn [replace_cp List.map existsb]. fold (replace_cp a b s). rewrite IH.
  destruct (N.eqb c a) eqn:E.
  - rewrite N.eqb_sym, H. reflexivity.
  - rewrite N.eqb_sym, E. reflexivity.
Qed.

Lemma replace_cp_id : forall a b (s : text),
  existsb (N.eqb a) s = false -> replace_cp a b s = s.
Proof.
  intros a b s. induction s as [|c s IH]; intros H; [reflexivity|].
  cbn [existsb] in H. apply orb_false_iff in H. destruct H as [Hc Hs].
  cbn [replace_cp List.map]. fold (replace_cp a b s).
  rewrite N.eqb_sym, Hc, (IH Hs). reflexivity.
Qed.

(** X9: the name of the CSV download holds no space, is twelve code
    points longer than the meeting title, and is the title followed by
    [_actions.csv] when the title has no space. *)
Theorem csv_name_no_space : forall title,
  existsb (N.eqb 32) (csv_name title) = false
  /\ length (csv_name title) = length title + 12
  /\ (existsb (N.eqb 32) title = false ->
      csv_name title = title ++ str "_actions.csv").
Proof.
  intros title. unfold csv_name. split; [|split].
  - rewrite existsb_app. apply orb_false_iff. split; [|reflexivity].
    apply replace_cp_free. reflexivity.
  - rewrite length_app. unfold replace_cp. rewrite length_map. reflexivity.
  - intros H. rewrite (@replace_cp_id 32%N 95%N title H). reflexivity.
Qed.

Lemma csv_name_no_space_witness :
  existsb (N.eqb 32) (str "Sync") = false
  /\ csv_name (str "Sync") = str "Sync_actions.csv".
Proof.
  split; [reflexivity|].
  apply (proj2 (proj2 (csv_name_no_space (str "Sync")))). reflexivity.
Defined.

(** ** From the analysis to the tasks *)





(** ** The length of what the caption filter returns *)

Lemma strip_length : forall s, length (strip s) <= length s.
Proof.
  intros s. destruct (strip_infix s) as (a & b & E & _).
  rewrite E at 2. rewrite !length_app. clear E. lia.
Qed.

Lemma squeeze_length : forall s b, length (squeeze b s) <= length s.
Proof.
  induction s as [|c s IH]; intros b; [destruct b; apply le_n|].
  cbn [squeeze]. destruct (is_space c).
  - destruct b.
    + specialize (IH true). simpl. lia.
    + destruct s as [|d s]; [apply le_n|].
      destruct (is_space d); [specialize (IH true) | specialize (IH false)];
        simpl in *; lia.
  - specialize (IH false). simpl. lia.
Qed.

Lemma Replaced_length : forall pv s o, Replaced pv s o -> length o <= length s.
Proof.
  intros pv s o H. induction H as [pv | pv c s o H IH | pv u v o Ht Hl Hr H IH].
  - apply le_n.
  - simpl. lia.
  - destruct (timecode_facts _ Ht) as (_ & (c & u' & -> & _) & _).
    rewrite length_app. simpl. lia.
Qed.

Lemma keep_line_length : forall l k, keep_line l = Some k -> length k <= length l.
Proof.
  intros l k H. rewrite keep_line_direct in H.
  destruct (timing_line l); [discriminate|]. cbv zeta in H.
  destruct (nonempty _ && _ && _); [|discriminate]. inversion H.
  pose proof (strip_length (blank_from None l)) as L1.
  pose proof (@Replaced_length None l (blank_from None l)
                (@blank_Replaced (length l) l None (le_n _))) as L2.
  lia.
Qed.

Lemma kept_weight : forall ls, weight (kept_lines ls) <= weight ls.
Proof.
  induction ls as [|l ls IH]; [apply le_n|].
  cbn [kept_lines]. destruct (keep_line l) as [k|] eqn:E.
  - apply keep_line_length in E. cbn [weight]. lia.
  - cbn [weight]. lia.
Qed.

Lemma join_weight : forall ls,
  length (join (str " ") ls) = pred (weight ls).
Proof.
  induction ls as [|l ls IH]; [reflexivity|].
  destruct ls as [|l' ls].
  - cbn [join weight]. rewrite Nat.add_0_r. reflexivity.
  - rewrite join_cons2, !length_app, IH.
    cbn [weight str List.map list_ascii_of_string Datatypes.length]. lia.
Qed.

Lemma splitlines_weight : forall n t,
  length t <= n -> weight (splitlines t) <= S (length t).
Proof.
  induction n as [|n IH]; intros t Hn.
  - destruct t; [simpl; lia | simpl in Hn; lia].
  - destruct t as [|c t]; [simpl; lia|].
    destruct (@splitlines_first (c :: t)) as (l & br & rest & E & Es & _ & _ & Hr & Hl);
      [discriminate|].
    rewrite Es. cbn [weight]. rewrite E, !length_app.
    destruct br as [|b br].
    + rewrite (Hr eq_refl). simpl. lia.
    + assert (length rest <= n) by (simpl in Hn, Hl; lia).
      specialize (IH rest H). simpl. lia.
Qed.

(** X11: the caption filter never lengthens a text. *)
Theorem filter_never_lengthens : forall t, length (parse_vtt t) <= length t.
Proof.
  intros t. rewrite parse_direct.
  pose proof (strip_length
    (squeeze false (join (str " ") (kept_lines (splitlines t))))) as L1.
  pose proof (squeeze_length
    (join (str " ") (kept_lines (splitlines t))) false) as L2.
  pose proof (join_weight (kept_lines (splitlines t))) as L3.
  pose proof (kept_weight (splitlines t)) as L4.
  pose proof (@splitlines_weight (length t) t (le_n _)) as L5.
  lia.
Qed.

(** ** The candidates of the recoverer *)

Section GreedyAny.
Variable R : Type.
Variable x : cp.
Variable f : pstate -> option R.
Hypothesis f_total : forall st, f st <> None.

(** The continuation of a greedy [.*] followed by the code point [x]. *)
Let K (st : pstate) : option R :=
  match rest st with
  | c :: s' => if N.eqb x c then f (adv c s' st) else None
  | [] => None
  end.

(** A greedy [.*] before [x] runs to the last [x]. *)
Lemma greedy_any_last : forall s pv o,
  rep_greedy any 0 None K pv s o
  = match last_pos x s with
    | Some i => K (mkp (last_opt pv (firstn i s)) (skipn i s) (o + i))
    | None => None
    end.
Proof.
  induction s as [|c s IH]; intros pv o; [reflexivity|].
  cbn [rep_greedy last_pos]. change (any c) with true.
  cbn [andb hi_ok option_map pred]. rewrite IH.
  destruct (last_pos x s) as [i|] eqn:El.
  - cbn [firstn skipn]. rewrite last_opt_cons, <- plus_n_Sm.
    change (S o + i) with (S (o + i)).
    destruct (K (mkp (last_opt (Some c) (firstn i s)) (skipn i s) (S (o + i))))
      eqn:Ek; [reflexivity|].
    exfalso. clear IH. revert Ek. unfold K. cbn [rest].
    assert (Hx : exists d r, skipn i s = d :: r /\ N.eqb x d = true).
    { clear -El. revert i El. induction s as [|a s IH]; intros i El;
        [discriminate|].
      cbn [last_pos] in El. destruct (last_pos x s) as [j|] eqn:Ej.
      - inversion El. subst. cbn [skipn]. apply IH. reflexivity.
      - destruct (N.eqb a x) eqn:Ea; [|discriminate]. inversion El. subst.
        exists a, s. split; [reflexivity|]. rewrite N.eqb_sym. exact Ea. }
    destruct Hx as (d & r & -> & Hd). rewrite Hd. apply f_total.
  - unfold K at 1. cbn [rest]. rewrite N.eqb_sym.
    destruct (N.eqb c x) eqn:Ec; [|reflexivity].
    cbn [firstn skipn last_opt fold_left]. unfold K. cbn [rest].
    rewrite N.eqb_sym, Ec, Nat.add_0_r. reflexivity.
Qed.

End GreedyAny.

Lemma span_here : forall (R : Type) (a b : cp) (g : caps -> nat -> R) cs pv s o,
  mt (Cls (N.eqb a) @@ star any @@ Cls (N.eqb b))%re
     (fun cs' st' => Some (g cs' (off st'))) cs (mkp pv s o)
  = match closed_span a b s with
    | Some n => Some (g cs (o + n))
    | None => None
    end.
Proof.
  intros R a b g cs pv s o. destruct s as [|c s]; [reflexivity|].
  unfold star. cbn [mt rest prev off adv closed_span].
  rewrite (N.eqb_sym c a). destruct (N.eqb a c); [|reflexivity].
  etransitivity.
  { apply (@greedy_any_last R b (fun st => Some (g cs (off st)))).
    intros st. discriminate. }
  destruct (last_pos b s) as [i|] eqn:El; [|reflexivity].
  assert (Hx : exists d r, skipn i s = d :: r /\ N.eqb b d = true).
  { clear -El. revert i El. induction s as [|x s IH]; intros i El;
      [discriminate|].
    cbn [last_pos] in El. destruct (last_pos b s) as [j|] eqn:Ej.
    - inversion El. subst. cbn [skipn]. apply IH. reflexivity.
    - destruct (N.eqb x b) eqn:Ea; [|discriminate]. inversion El. subst.
      exists x, s. split; [reflexivity|]. rewrite N.eqb_sym. exact Ea. }
  destruct Hx as (d & r & Es & Hd). cbn [rest]. rewrite Es, Hd.
  cbn [adv off]. do 2 f_equal. rewrite <- !plus_n_Sm, Nat.add_0_r. reflexivity.
Qed.

(** The candidate pattern at a position, evaluated. *)
Lemma bare_match : forall pv s o,
  match_here BARE_JSON (mkp pv s o)
  = match bare_here s with
    | Some n => Some (o + n, [(1, (o, o + n))])
    | None => None
    end.
Proof.
  intros pv s o. unfold match_here, BARE_JSON.
  change (match mt (Cls (N.eqb 123) @@ star any @@ Cls (N.eqb 125))%re
                  (fun cs' st' => Some (off st', (1, (o, off st')) :: cs'))
                  [] (mkp pv s o) with
          | Some x => Some x
          | None => mt (Cls (N.eqb 91) @@ star any @@ Cls (N.eqb 93))%re
                      (fun cs' st' => Some (off st', (1, (o, off st')) :: cs'))
                      [] (mkp pv s o)
          end
          = match bare_here s with
            | Some n => Some (o + n, [(1, (o, o + n))])
            | None => None
            end).
  rewrite (@span_here _ 123%N 125%N (fun cs' e => (e, (1, (o, e)) :: cs')) [] pv s o).
  rewrite (@span_here _ 91%N 93%N (fun cs' e => (e, (1, (o, e)) :: cs')) [] pv s o).
  unfold bare_here.
  destruct (closed_span 123%N 125%N s); [reflexivity|].
  destruct (closed_span 91%N 93%N s); reflexivity.
Qed.

Lemma last_pos_after : forall x s i,
  last_pos x s = Some i -> has x (skipn (S i) s) = false.
Proof.
  intros x. induction s as [|c s IH]; intros i H; [discriminate|].
  cbn [last_pos] in H. destruct (last_pos x s) as [j|] eqn:Ej.
  - inversion H. subst. cbn [skipn]. apply IH. reflexivity.
  - destruct (N.eqb c x); [|discriminate]. inversion H. subst. cbn [skipn].
    clear -Ej. induction s as [|a s IH]; [reflexivity|].
    cbn [last_pos] in Ej. destruct (last_pos x s); [discriminate|].
    destruct (N.eqb a x) eqn:Ea; [discriminate|].
    unfold has in *. cbn [existsb]. rewrite N.eqb_sym, Ea. apply IH. reflexivity.
Qed.

Lemma last_pos_some : forall x s i,
  last_pos x s = Some i -> has x s = true.
Proof.
  intros x. induction s as [|c s IH]; intros i H; [discriminate|].
  cbn [last_pos] in H. unfold has in *. cbn [existsb].
  destruct (last_pos x s) as [j|].
  - rewrite (IH j eq_refl). apply orb_true_r.
  - destruct (N.eqb c x) eqn:E; [|discriminate].
    rewrite N.eqb_sym, E. reflexivity.
Qed.

Lemma last_pos_last : forall x s i,
  last_pos x s = Some i -> last (firstn (S i) s) 0%N = x.
Proof.
  intros x. induction s as [|c s IH]; intros i H; [discriminate|].
  cbn [last_pos] in H. destruct (last_pos x s) as [j|] eqn:Ej.
  - inversion H. subst. specialize (IH j eq_refl).
    change (firstn (S (S j)) (c :: s)) with (c :: firstn (S j) s).
    destruct s as [|d s]; [discriminate|]. exact IH.
  - destruct (N.eqb c x) eqn:E; [|discriminate]. inversion H. subst.
    apply N.eqb_eq in E. destruct s; exact E.
Qed.

Lemma has_skipn : forall x n s, has x (skipn n s) = true -> has x s = true.
Proof.
  intros x n s H. unfold has in *.
  rewrite <- (firstn_skipn n s), existsb_app. apply orb_true_iff. right.
  exact H.
Qed.

Lemma has_skipn_le : forall x n s,
  (if has x (skipn n s) then 1 else 0) <= (if has x s then 1 else 0).
Proof.
  intros x n s. destruct (has x (skipn n s)) eqn:E.
  - rewrite (has_skipn _ _ _ E). apply le_n.
  - destruct (has x s); [apply Nat.le_0_1 | apply le_n].
Qed.

Lemma closers_skipn : forall n s, closers (skipn n s) <= closers s.
Proof.
  intros n s. unfold closers.
  apply Nat.add_le_mono; apply has_skipn_le.
Qed.

Lemma closed_span_closers : forall a b s n,
  closed_span a b s = Some n ->
  exists c s' i, s = c :: s' /\ c = a /\ n = i + 2
    /\ last_pos b s' = Some i.
Proof.
  intros a b [|c s'] n H; [discriminate|]. cbn [closed_span] in H.
  destruct (N.eqb c a) eqn:E; [|discriminate].
  destruct (last_pos b s') as [i|] eqn:El; [|discriminate].
  inversion H. apply N.eqb_eq in E. exists c, s', i. auto.
Qed.

Lemma bare_here_closers : forall c s n,
  bare_here (c :: s) = Some n ->
  S (closers (skipn (pred n) s)) <= closers (c :: s).
Proof.
  intros c s n H. unfold bare_here in H.
  assert (Hs : exists b i, n = i + 2 /\ last_pos b s = Some i
                 /\ (b = 125%N \/ b = 93%N)).
  { destruct (closed_span 123%N 125%N (c :: s)) as [m|] eqn:E.
    - inversion H. subst m. apply closed_span_closers in E.
      destruct E as (c' & s' & i & E0 & _ & En & El). inversion E0. subst.
      exists 125%N, i. auto.
    - apply closed_span_closers in H.
      destruct H as (c' & s' & i & E0 & _ & En & El). inversion E0. subst.
      exists 93%N, i. auto. }
  destruct Hs as (b & i & -> & El & Hb).
  replace (pred (i + 2)) with (S i) by lia.
  pose proof (last_pos_after _ _ El) as Ha.
  pose proof (has_skipn b 1 (c :: s) (last_pos_some _ _ El)) as Hp.
  pose proof (has_skipn_le 125%N (S (S i)) (c :: s)) as H1.
  pose proof (has_skipn_le 93%N (S (S i)) (c :: s)) as H2.
  change (skipn (S (S i)) (c :: s)) with (skipn (S i) s) in H1, H2.
  unfold closers.
  destruct Hb as [-> | ->].
  - rewrite Ha in *. rewrite Hp. clear H El Hp Ha H1.
    destruct (has 93%N (skipn (S i) s)), (has 93%N (c :: s)); simpl in *; lia.
  - rewrite Ha in *. rewrite Hp. clear H El Hp Ha H2.
    destruct (has 125%N (skipn (S i) s)), (has 125%N (c :: s)); simpl in *; lia.
Qed.

Lemma closers_cons : forall c s, closers s <= closers (c :: s).
Proof. intros c s. apply (closers_skipn 1 (c :: s)). Qed.

Lemma findall_bare_count : forall s whole pv o skip,
  length (findall_go BARE_JSON whole pv s o skip) <= closers (skipn skip s).
Proof.
  induction s as [|c s IH]; intros whole pv o skip.
  - cbn [findall_go]. destruct skip; [|simpl; lia].
    rewrite bare_match. simpl. lia.
  - cbn [findall_go]. destruct skip as [|k].
    + rewrite bare_match. destruct (bare_here (c :: s)) as [n|] eqn:E.
      * cbn [Datatypes.length skipn].
        replace (o + n - o) with n by lia.
        pose proof (bare_here_closers _ _ E) as Hc.
        specialize (IH whole (Some c) (S o) (pred n)). lia.
      * cbn [pred skipn]. specialize (IH whole (Some c) (S o) 0).
        cbn [skipn] in IH. pose proof (closers_cons c s). lia.
    + cbn [pred skipn]. apply IH.
Qed.

Lemma slice_app : forall (pre s : text) n,
  slice (pre ++ s) (length pre) (length pre + n) = firstn n s.
Proof.
  intros pre s n. unfold slice.
  replace (length pre + n - length pre) with n by lia.
  rewrite skipn_app, Nat.sub_diag, skipn_all. reflexivity.
Qed.

Lemma bare_here_delimited : forall s n,
  bare_here s = Some n -> delimited (firstn n s) = true.
Proof.
  intros s n H. unfold bare_here in H.
  destruct (closed_span 123%N 125%N s) as [m|] eqn:E.
  - inversion H. subst m. apply closed_span_closers in E.
    destruct E as (c & s' & i & -> & -> & -> & El).
    replace (i + 2) with (S (S i)) by lia.
    change (firstn (S (S i)) (123%N :: s')) with (123%N :: firstn (S i) s').
    cbn [delimited]. rewrite (last_pos_last _ _ El). reflexivity.
  - apply closed_span_closers in H.
    destruct H as (c & s' & i & -> & -> & -> & El).
    replace (i + 2) with (S (S i)) by lia.
    change (firstn (S (S i)) (91%N :: s')) with (91%N :: firstn (S i) s').
    cbn [delimited]. rewrite (last_pos_last _ _ El). reflexivity.
Qed.

Lemma findall_bare_delimited : forall s pre pv skip,
  Forall (fun g => delimited g = true)
    (findall_go BARE_JSON (pre ++ s) pv s (length pre) skip).
Proof.
  induction s as [|c s IH]; intros pre pv skip.
  - cbn [findall_go]. destruct skip; [|constructor].
    rewrite bare_match. constructor.
  - assert (E : pre ++ c :: s = (pre ++ [c]) ++ s)
      by (rewrite <- app_assoc; reflexivity).
    assert (L : S (length pre) = length (pre ++ [c]))
      by (rewrite length_app; simpl; lia).
    cbn [findall_go]. destruct skip as [|k].
    + rewrite bare_match. destruct (bare_here (c :: s)) as [n|] eqn:Eb.
      * cbn [get_cap Nat.eqb]. constructor.
        -- rewrite slice_app. apply bare_here_delimited. exact Eb.
        -- rewrite E, L. apply IH.
      * rewrite E, L. apply IH.
    + rewrite E, L. apply IH.
Qed.

(** X12: the candidate scan of the recoverer has at most two candidates,
    and no more than there are kinds of closing bracket in the text; each
    candidate opens with a brace and ends with the closing brace, or
    opens with a bracket and ends with the closing bracket. *)
Theorem candidates_at_most_two : forall t,
  length (findall BARE_JSON t) <= closers t
  /\ length (findall BARE_JSON t) <= 2
  /\ Forall (fun g => delimited g = true) (findall BARE_JSON t).
Proof.
  intros t. unfold findall.
  pose proof (findall_bare_count t t None 0 0) as H. cbn [skipn] in H.
  split; [exact H|]. split.
  - assert (closers t <= 2).
    { unfold closers. destruct (has 125%N t); destruct (has 93%N t); simpl; lia. }
    lia.
  - apply (findall_bare_delimited t [] None 0).
Qed.

(** ** Responses without brackets *)

Lemma no_opener_cons : forall c s,
  no_opener (c :: s) = true ->
  N.eqb c 123 = false /\ N.eqb c 91 = false /\ no_opener s = true.
Proof.
  intros c s H. unfold no_opener in *. cbn [existsb] in H.
  apply negb_true_iff in H. apply orb_false_iff in H. destruct H as [H1 H2].
  apply orb_false_iff in H1. destruct H1 as [H1 H3].
  split; [exact H1|]. split; [exact H3|]. apply negb_true_iff. exact H2.
Qed.

Lemma no_opener_app : forall a b,
  no_opener (a ++ b) = true -> no_opener a = true /\ no_opener b = true.
Proof.
  intros a b H. unfold no_opener in *. rewrite existsb_app in H.
  apply negb_true_iff in H. apply orb_false_iff in H. destruct H as [Ha Hb].
  split; apply negb_true_iff; assumption.
Qed.

Lemma bare_here_no_opener : forall s, no_opener s = true -> bare_here s = None.
Proof.
  intros [|c s] H; [reflexivity|].
  destruct (no_opener_cons _ _ H) as (H1 & H2 & _).
  unfold bare_here, closed_span. rewrite H1, H2. reflexivity.
Qed.

Lemma findall_bare_none : forall s whole pv o skip,
  no_opener s = true -> findall_go BARE_JSON whole pv s o skip = [].
Proof.
  induction s as [|c s IH]; intros whole pv o skip H.
  - cbn [findall_go]. destruct skip; [|reflexivity].
    rewrite bare_match. reflexivity.
  - destruct (no_opener_cons _ _ H) as (_ & _ & Hs).
    cbn [findall_go]. destruct skip as [|k].
    + rewrite bare_match, (bare_here_no_opener _ H). apply IH. exact Hs.
    + apply IH. exact Hs.
Qed.

Lemma FENCED_opener : forall l u rt, Ms FENCED_JSON l u rt -> no_opener u = false.
Proof.
  intros l u rt H. unfold FENCED_JSON in H. ms_inv.
  all: unfold no_opener; apply negb_false_iff; apply existsb_exists.
  - exists 123%N. split; [|reflexivity].
    apply in_or_app; right. apply in_or_app; right. apply in_or_app; left.
    left. reflexivity.
  - exists 91%N. split; [|reflexivity].
    apply in_or_app; right. apply in_or_app; right. apply in_or_app; left.
    left. reflexivity.
Qed.

Lemma fenced_no_opener : forall t, no_opener t = true -> fenced_block t = None.
Proof.
  intros t H. unfold fenced_block.
  destruct (search FENCED_JSON t) as [[[b e] cs]|] eqn:E; [|reflexivity].
  exfalso. unfold search in E. apply search_from_some in E.
  destruct E as (pre & suf & pv' & o' & -> & Hm).
  destruct (match_here FENCED_JSON (mkp pv' suf o')) as [[e' cs']|] eqn:Em;
    [|congruence].
  apply match_here_sound in Em. destruct Em as (u & v & -> & _ & HM).
  apply FENCED_opener in HM.
  apply no_opener_app in H. destruct H as [_ H].
  apply no_opener_app in H. destruct H as [H _]. congruence.
Qed.

(** X13: on a response without opening brace or bracket the recoverer
    finds no fenced block and no candidate, and returns what decoding the
    whole response gives, [None] when it does not decode. *)
Theorem no_bracket_whole_text : forall t,
  no_opener t = true ->
  fenced_block t = None
  /\ findall BARE_JSON t = []
  /\ extract_json t
     = match Json.loads t with Some v => v | None => JNull end.
Proof.
  intros t H.
  pose proof (fenced_no_opener _ H) as Hf.
  pose proof (findall_bare_none t t None 0 0 H) as Hc.
  split; [exact Hf|]. split; [exact Hc|].
  unfold extract_json, scan_candidates. rewrite Hf.
  unfold findall. rewrite Hc. reflexivity.
Qed.

Lemma no_bracket_whole_text_witness :
  no_opener (str " 42 ") = true /\ extract_json (str " 42 ") = JInt 42.
Proof.
  split; [reflexivity|].
  destruct (no_bracket_whole_text (str " 42 ") eq_refl) as (_ & _ & E).
  rewrite E. vm_compute. reflexivity.
Defined.

(** ** Credentials *)

Lemma interactive_cases : forall w,
  interactive w = (None, [MissingSecrets])
  \/ interactive w = (None, [OAuthFailed])
  \/ exists c, w_flow w = Some c /\ interactive w = (Some c, [TokenWritten c]).
Proof.
  intros w. unfold interactive.
  destruct (w_secrets_exist w); cbn [negb]; [|auto].
  destruct (w_flow w) as [c|]; [|auto].
  destruct (w_write_ok w); [|auto]. right. right. exists c. auto.
Qed.

(** X14: [ensure_creds] returns nothing exactly when it reports an
    error; it writes the token file only for the credentials of a
    successful interactive flow, which it then returns, so that
    refreshed credentials are returned without being saved; and stored
    credentials that are not valid and cannot be refreshed are returned
    as they are, without error. *)
Theorem ensure_creds_outcomes : forall w,
  (fst (ensure_creds w) = None
   <-> In MissingSecrets (snd (ensure_creds w))
       \/ In OAuthFailed (snd (ensure_creds w)))
  /\ (forall c, In (TokenWritten c) (snd (ensure_creds w)) ->
        fst (ensure_creds w) = Some c /\ w_flow w = Some c)
  /\ (forall c c',
        w_token_exists w = true -> w_load w = Some c -> cr_valid c = false ->
        cr_expired c && cr_refresh_token c = true ->
        w_refresh w c = Some c' -> ensure_creds w = (Some c', []))
  /\ (forall c,
        w_token_exists w = true -> w_load w = Some c -> cr_valid c = false ->
        cr_expired c && cr_refresh_token c = false ->
        ensure_creds w = (Some c, [])).
Proof.
  intros w.
  assert (HR : (fst (ensure_creds w) = None
                <-> In MissingSecrets (snd (ensure_creds w))
                    \/ In OAuthFailed (snd (ensure_creds w)))
               /\ (forall c, In (TokenWritten c) (snd (ensure_creds w)) ->
                     fst (ensure_creds w) = Some c /\ w_flow w = Some c)).
  { unfold ensure_creds.
    destruct (if w_token_exists w then w_load w else None) as [c|];
      [destruct (cr_valid c);
       [|destruct (cr_expired c && cr_refresh_token c);
         [destruct (w_refresh w c) as [c'|]|]]|].
    all: try (destruct (interactive_cases w) as [H | [H | (c1 & Hf & H)]];
              rewrite H).
    all: cbn [fst snd In].
    all: repeat split; intros; try discriminate; try tauto;
      repeat match goal with
      | H : _ \/ _ |- _ => destruct H
      end; try discriminate; try tauto;
      try match goal with
      | H : TokenWritten _ = TokenWritten _ |- _ => inversion H; subst
      end; auto. }
  split; [exact (proj1 HR)|]. split; [exact (proj2 HR)|]. split.
  - intros c c' He Hl Hv Hr Hf. unfold ensure_creds.
    rewrite He, Hl, Hv, Hr, Hf. reflexivity.
  - intros c He Hl Hv Hr. unfold ensure_creds.
    rewrite He, Hl, Hv, Hr. reflexivity.
Qed.

Lemma ensure_creds_outcomes_witness :
  cr_valid stale_cred = false
  /\ ensure_creds stale_world = (Some stale_cred, []).
Proof.
  split; [reflexivity|].
  apply (proj2 (proj2 (proj2 (ensure_creds_outcomes stale_world))) stale_cred);
    reflexivity.
Defined.

(** X15: the credentials [get_drive_service] builds the service with
    are valid as stored or have just been written to the token file,
    refreshed ones included; on stored credentials that are valid it
    agrees with [ensure_creds]; and where [ensure_creds] returns stored
    credentials that are not valid and cannot be refreshed, it runs the
    interactive flow instead. *)
Theorem drive_service_credentials : forall w,
  (forall c, fst (get_drive_service w) = Some c ->
     (cr_valid c = true /\ snd (get_drive_service w) = [])
     \/ snd (get_drive_service w) = [TokenWritten c])
  /\ (forall c,
        w_token_exists w = true -> w_load w = Some c -> cr_valid c = true ->
        get_drive_service w = (Some c, [])
        /\ ensure_creds w = (Some c, []))
  /\ (forall c,
        w_token_exists w = true -> w_load w = Some c -> cr_valid c = false ->
        cr_expired c && cr_refresh_token c = false ->
        ensure_creds w = (Some c, [])
        /\ get_drive_service w
           = match (if w_secrets_exist w then w_flow w else None) with
             | Some c' => save_token w c'
             | None => (None, [])
             end).
Proof.
  intros w. split; [|split].
  - intros c. unfold get_drive_service, save_token.
    destruct (if w_token_exists w then w_load w else None) as [c0|].
    + destruct (cr_valid c0) eqn:Ev.
      * cbn [fst snd]. intros E. inversion E. subst. auto.
      * destruct (cr_expired c0 && cr_refresh_token c0).
        -- destruct (w_refresh w c0) as [c'|]; [|discriminate].
           destruct (w_write_ok w); [|discriminate].
           cbn [fst snd]. intros E. inversion E. auto.
        -- destruct (if w_secrets_exist w then w_flow w else None) as [c'|];
             [|discriminate].
           destruct (w_write_ok w); [|discriminate].
           cbn [fst snd]. intros E. inversion E. auto.
    + destruct (if w_secrets_exist w then w_flow w else None) as [c'|];
        [|discriminate].
      destruct (w_write_ok w); [|discriminate].
      cbn [fst snd]. intros E. inversion E. auto.
  - intros c He Hl Hv. unfold get_drive_service, ensure_creds.
    rewrite He, Hl, Hv. auto.
  - intros c He Hl Hv Hr. unfold get_drive_service, ensure_creds.
    rewrite He, Hl, Hv, Hr. auto.
Qed.

Lemma drive_service_credentials_witness :
  ensure_creds stale_world = (Some stale_cred, [])
  /\ get_drive_service stale_world
     = (Some (mkcred true false true 8), [TokenWritten (mkcred true false true 8)]).
Proof.
  destruct (proj2 (proj2 (drive_service_credentials stale_world)) stale_cred
              eq_refl eq_refl eq_refl eq_refl) as [H1 H2].
  split; [exact H1|]. rewrite H2. reflexivity.
Defined.

(** ** Files of the same name *)

(** X16: the file taken for a selected name is the first file listed
    under that name: whatever follows it in the list, a second file of
    the same name included, plays no part. *)
Theorem find_named_first : forall fs name f,
  find_named fs name = inl (Some f)
  <-> exists pre post,
        fs = pre ++ f :: post
        /\ item f "name" = inl (JStr name)
        /\ Forall (fun g => exists n, item g "name" = inl n
                                      /\ named name n = false) pre.
Proof.
  intros fs name f. split.
  - revert f. induction fs as [|g fs IH]; intros f H; [discriminate|].
    cbn [find_named] in H. destruct (item g "name") as [n|e] eqn:En;
      [|discriminate].
    destruct (named name n) eqn:Eq.
    + inversion H. subst g. exists [], fs. split; [reflexivity|].
      split; [|constructor].
      destruct n; try discriminate. cbn [named] in Eq.
      apply text_eqb_eq in Eq. subst. exact En.
    + destruct (IH f H) as (pre & post & -> & Hf & Hp).
      exists (g :: pre), post. split; [reflexivity|]. split; [exact Hf|].
      constructor; [exists n; auto | exact Hp].
  - intros (pre & post & -> & Hf & Hp).
    induction Hp as [|g pre (n & En & Eq) _ IH].
    + cbn [app find_named]. rewrite Hf. cbn [named].
      rewrite text_eqb_refl. reflexivity.
    + cbn [app find_named]. rewrite En, Eq. exact IH.
Qed.

Lemma find_named_first_witness :
  find_named twin_files (str "sync.vtt")
  = inl (Some (JObj [(str "id", JStr (str "A"));
                     (str "name", JStr (str "sync.vtt"))])).
Proof.
  apply (proj2 (find_named_first twin_files (str "sync.vtt") _)).
  exists [], [JObj [(str "id", JStr (str "B")); (str "name", JStr (str "sync.vtt"))]].
  split; [reflexivity|]. split; [reflexivity | constructor].
Defined.
